(** * schwarzschild_black_holes: the four-vector header [sbh_vec4.h]

    A shallow embedding of [struct sbh_vec4] and of the four inline
    functions of the header, followed by the properties its specification
    states about them and by further properties of the functions: how they
    compose, what they do to radii that are not finite, and that no product
    overflows.

    Conventions of the embedding

    - a C [double] is an IEEE-754 binary64 datum: a zero, an infinity, a
      NaN or a finite number, each with its sign bit.  The payload of a NaN
      is not modelled;
    - the product of two doubles is the Standard Library's [SFmul] at
      precision 53 and maximal exponent 1024, rounding to nearest, ties to
      even, with every intermediate product rounded to binary64
      (FLT_EVAL_METHOD 0; there is no addition in the header, hence nothing
      to contract).  When the product is a NaN its sign bit is what the
      platform makes it: IEEE 754 does not say, and the functions take the
      rule as a parameter;
    - [sin] and [cos] come from <math.h>, not from this repository: the
      functions take them as parameters;
    - [double dat[4]] is a block of four cells reached through an index;
      an access outside 0..3 has no defined behaviour in C and is a failure
      of the model;
    - a function body is a computation over the one struct object it works
      on, and records each cell it reads or writes, in order. *)

From Stdlib Require Import ZArith List Bool Lia.
From Stdlib Require Import Floats.SpecFloat.
From Stdlib Require Reals Lra.
Import ListNotations.

Local Open Scope Z_scope.

(** ** binary64 *)

Module Double.

Definition prec : Z := 53.
Definition emax : Z := 1024.

(** The binary64 data.  [B754_finite s m e] is [m * 2^e], negated when [s]
    is set. *)
Inductive double : Type :=
| B754_zero (s : bool)
| B754_infinity (s : bool)
| B754_nan (s : bool)
| B754_finite (s : bool) (m : positive) (e : Z).

(** A double without the sign bit of its NaN. *)
Definition to_spec (a : double) : spec_float :=
  match a with
  | B754_zero s => S754_zero s
  | B754_infinity s => S754_infinity s
  | B754_nan _ => S754_nan
  | B754_finite s m e => S754_finite s m e
  end.

(** The double that [x] stands for, [ns] being the sign bit of the NaN. *)
Definition of_spec (ns : bool) (x : spec_float) : double :=
  match x with
  | S754_zero s => B754_zero s
  | S754_infinity s => B754_infinity s
  | S754_nan => B754_nan ns
  | S754_finite s m e => B754_finite s m e
  end.

(** [a * b] on doubles; [nan_sign a b] is the sign bit of the product when
    the product is a NaN. *)
Definition mul (nan_sign : double -> double -> bool) (a b : double) : double :=
  of_spec (nan_sign a b) (SFmul prec emax (to_spec a) (to_spec b)).

(** [-a] on doubles: the sign bit is flipped, that of a NaN too. *)
Definition neg (a : double) : double :=
  match a with
  | B754_zero s => B754_zero (negb s)
  | B754_infinity s => B754_infinity (negb s)
  | B754_nan s => B754_nan (negb s)
  | B754_finite s m e => B754_finite (negb s) m e
  end.

(** [a == b] on doubles. *)
Definition eqb (a b : double) : bool := SFeqb (to_spec a) (to_spec b).

(** The data that are encodings of a binary64 datum. *)
Definition valid (a : double) : bool := valid_binary prec emax (to_spec a).

(** [isfinite]. *)
Definition is_finite (a : double) : bool :=
  match a with
  | B754_zero _ | B754_finite _ _ _ => true
  | B754_infinity _ | B754_nan _ => false
  end.

(** [isnan]. *)
Definition is_nan (a : double) : bool :=
  match a with
  | B754_nan _ => true
  | _ => false
  end.

(** [a] is [+0.0] or [-0.0]. *)
Definition is_zero (a : double) : bool :=
  match a with
  | B754_zero _ => true
  | _ => false
  end.

(** The double nearest to [m * 2^e]. *)
Definition of_scaled (m e : Z) : double :=
  of_spec false (binary_normalize prec emax m e false).

(** An integer literal. *)
Definition of_Z (n : Z) : double := of_scaled n 0.

Definition zero : double := B754_zero false.
Definition one : double := Eval vm_compute in of_Z 1.
Definition infinity : double := B754_infinity false.

(** [DBL_MIN], the least positive normal double, and [DBL_MAX]. *)
Definition DBL_MIN : double := B754_finite false 4503599627370496 (-1074).
Definition DBL_MAX : double := B754_finite false 9007199254740991 971.

(** [DBL_EPSILON], which is [2^-52]. *)
Definition DBL_EPSILON : double := B754_finite false 4503599627370496 (-104).

(** [fabs (a) <= fabs (b)]. *)
Definition fabs_le (a b : double) : bool :=
  SFleb (SFabs (to_spec a)) (SFabs (to_spec b)).

(** [fabs (a) <= 1.0]. *)
Definition fabs_le_one (a : double) : bool := fabs_le a one.

(** [a <= b]. *)
Definition leb (a b : double) : bool := SFleb (to_spec a) (to_spec b).

(** A finite double is a multiple of [2^-1074], the least positive double:
    [ulps a] is that multiple, and 0 on the other doubles. *)
Definition ulps (a : double) : Z :=
  match a with
  | B754_finite s m e =>
      let v := Zpos m * 2 ^ (e + 1074) in if s then - v else v
  | _ => 0
  end.

(** 1.0 in the same unit. *)
Definition ulps_one : Z := 2 ^ 1074.

End Double.

Import Double.

Declare Scope double_scope.
Delimit Scope double_scope with double.
Bind Scope double_scope with double.
Notation "- a" := (neg a) : double_scope.

(** ** The struct *)

(** [struct sbh_vec4 { double dat[4]; }]: four cells, none of them named. *)
Record sbh_vec4 : Type := mk_sbh_vec4 {
  cell0 : double;
  cell1 : double;
  cell2 : double;
  cell3 : double
}.

(** [p.dat[i]] as an rvalue. *)
Definition dat (p : sbh_vec4) (i : Z) : option double :=
  match i with
  | 0 => Some (cell0 p)
  | 1 => Some (cell1 p)
  | 2 => Some (cell2 p)
  | 3 => Some (cell3 p)
  | _ => None
  end.

(** [p.dat[i] = x]. *)
Definition dat_set (p : sbh_vec4) (i : Z) (x : double) : option sbh_vec4 :=
  match i with
  | 0 => Some (mk_sbh_vec4 x (cell1 p) (cell2 p) (cell3 p))
  | 1 => Some (mk_sbh_vec4 (cell0 p) x (cell2 p) (cell3 p))
  | 2 => Some (mk_sbh_vec4 (cell0 p) (cell1 p) x (cell3 p))
  | 3 => Some (mk_sbh_vec4 (cell0 p) (cell1 p) (cell2 p) x)
  | _ => None
  end.

(** ** Computations over one struct object *)

(** A cell access. *)
Inductive event : Type :=
| Rd (i : Z)
| Wr (i : Z).

(** The object a function body works on, and the accesses made so far,
    oldest first. *)
Record mem : Type := mk_mem {
  obj : sbh_vec4;
  trace : list event
}.

Definition M (A : Type) : Type := mem -> option (A * mem).

Definition ret {A : Type} (a : A) : M A := fun m => Some (a, m).

Definition bind {A B : Type} (c : M A) (k : A -> M B) : M B :=
  fun m =>
    match c m with
    | Some (a, m') => k a m'
    | None => None
    end.

Declare Scope M_scope.
Delimit Scope M_scope with M.
Notation "x <- c ;; k" := (bind c (fun x => k))
  (at level 61, c at next level, right associativity) : M_scope.
Notation "c ;; k" := (bind c (fun _ => k))
  (at level 61, right associativity) : M_scope.

(** Reading [dat[i]] of the object. *)
Definition load (i : Z) : M double :=
  fun m =>
    match dat (obj m) i with
    | Some x => Some (x, mk_mem (obj m) (trace m ++ [Rd i]))
    | None => None
    end.

(** Writing [dat[i]] of the object. *)
Definition store (i : Z) (x : double) : M unit :=
  fun m =>
    match dat_set (obj m) i x with
    | Some p => Some (tt, mk_mem p (trace m ++ [Wr i]))
    | None => None
    end.

(** The object as a value: [return p;]. *)
Definition value : M sbh_vec4 := fun m => Some (obj m, m).

(** The outcome of a call that cannot fail, or a failure. *)
Definition lift {A : Type} (o : option A) : M A :=
  fun m =>
    match o with
    | Some a => Some (a, m)
    | None => None
    end.

(** Running a body on an object whose accesses have not started. *)
Definition run {A : Type} (c : M A) (p : sbh_vec4) : option (A * mem) :=
  c (mk_mem p []).

(** The value a body returns. *)
Definition result {A : Type} (c : M A) (p : sbh_vec4) : option A :=
  option_map fst (run c p).

(** The object a body leaves behind. *)
Definition final {A : Type} (c : M A) (p : sbh_vec4) : option sbh_vec4 :=
  option_map (fun am => obj (snd am)) (run c p).

(** The accesses a body makes. *)
Definition accesses {A : Type} (c : M A) (p : sbh_vec4) : option (list event) :=
  option_map (fun am => trace (snd am)) (run c p).

(** No cell is read once a cell has been written. *)
Fixpoint reads_before_writes (l : list event) : bool :=
  match l with
  | [] => true
  | Rd _ :: l' => reads_before_writes l'
  | Wr _ :: l' =>
      forallb (fun e => match e with Wr _ => true | Rd _ => false end) l'
  end.

(** ** The functions of [sbh_vec4.h] *)

Section Header.

(** The sign bit of a product that is a NaN. *)
Variable mul_nan : double -> double -> bool.

(** <math.h> *)
Variables sin cos : double -> double.

(** What an automatic [struct sbh_vec4 p;] holds before it is assigned. *)
Variable indeterminate : sbh_vec4.

Local Notation "a * b" := (mul mul_nan a b) : double_scope.
Local Open Scope M_scope.

Definition sbh_vec4_rect (x y z t : double) : option sbh_vec4 :=
  result
    (store 0 x ;;
     store 1 y ;;
     store 2 z ;;
     store 3 t ;;
     value)
    indeterminate.

Definition sbh_vec4_rect_from_schwarzschild
    (r phi theta t : double) : option sbh_vec4 :=
  let sin_phi := sin phi in
  let cos_phi := cos phi in
  let sin_theta := sin theta in
  let cos_theta := cos theta in
  result
    (store 0 (r * sin_theta * cos_phi)%double ;;
     store 1 (r * sin_theta * sin_phi)%double ;;
     store 2 (r * cos_theta)%double ;;
     store 3 t ;;
     value)
    indeterminate.

(** The object is [*q]. *)
Definition sbh_vec4_schwarzschild_to_rect : M sbh_vec4 :=
  q0 <- load 0 ;;
  q1 <- load 1 ;;
  q2 <- load 2 ;;
  q3 <- load 3 ;;
  lift (sbh_vec4_rect_from_schwarzschild q0 q1 q2 q3).

(** The object is [*p]. *)
Definition sbh_vec4_convert_schwarzschild_to_rect : M unit :=
  r <- load 0 ;;
  sin_phi <- (a <- load 1 ;; ret (sin a)) ;;
  cos_phi <- (a <- load 1 ;; ret (cos a)) ;;
  sin_theta <- (a <- load 2 ;; ret (sin a)) ;;
  cos_theta <- (a <- load 2 ;; ret (cos a)) ;;
  store 0 (r * sin_theta * cos_phi)%double ;;
  store 1 (r * sin_theta * sin_phi)%double ;;
  store 2 (r * cos_theta)%double.

End Header.

(** ** A reference platform

    The header calls [sin] and [cos] of the platform and leaves the sign of
    a NaN product to it.  To evaluate the functions of the header at given
    arguments an instance is needed.

    [SSE2.mul_nan] is the rule of the scalar multiplication of x86-64: a
    NaN operand is returned, the first one when both are NaN, and a product
    that is invalid, an infinity by a zero, is the default NaN, whose sign
    bit is set.

    [RefMath.sin] and [RefMath.cos] follow Annex F of the C standard on
    zeros, infinities and NaN: the sine of a zero is that zero, the cosine
    is 1, an infinity gives the default NaN and a NaN gives itself.  On
    every other argument they evaluate the Taylor series in fixed-point
    arithmetic on integers, far beyond the precision of a double, before
    rounding once to binary64. *)

Module SSE2.

Definition default_nan : double := B754_nan true.

Definition mul_nan (a b : double) : bool :=
  match a, b with
  | B754_nan s, _ => s
  | _, B754_nan s => s
  | _, _ => true
  end.

End SSE2.

Module RefMath.

(** A real [x] is held as an integer near [x * 2^scale]. *)
Definition scale : Z := 1280.
Definition guard : Z := 64.
Definition keep : Z := 256.

(** Gregory's series of [arctan (1/n)], [nn] being [n * n]. *)
Fixpoint arctan_inv_sum (fuel : nat) (nn pw k acc : Z) (plus : bool) : Z :=
  match fuel with
  | O => acc
  | S fuel' =>
      let t := pw / k in
      if t =? 0 then acc
      else arctan_inv_sum fuel' nn (pw / nn) (k + 2)
             (if plus then acc + t else acc - t) (negb plus)
  end.

Definition arctan_inv (n : Z) : Z :=
  arctan_inv_sum 2000 (n * n) (2 ^ (scale + guard) / n) 1 0 true.

(** Machin: [pi = 16 arctan (1/5) - 4 arctan (1/239)]. *)
Definition pi_fixed : Z :=
  Eval vm_compute in
    Z.shiftr (16 * arctan_inv 5 - 4 * arctan_inv 239) guard.

(** [t - t r2 / (k (k+1)) + ...] at scale [2^s], until the terms vanish. *)
Fixpoint alt_series (fuel : nat) (s r2 t k acc : Z) : Z :=
  match fuel with
  | O => acc
  | S fuel' =>
      if t =? 0 then acc
      else alt_series fuel' s r2
             (- Z.shiftr (t * r2) s / (k * (k + 1))) (k + 2) (acc + t)
  end.

Definition sin_fixed (s r : Z) : Z :=
  alt_series 400 s (Z.shiftr (r * r) s) r 2 0.

Definition cos_fixed (s r : Z) : Z :=
  alt_series 400 s (Z.shiftr (r * r) s) (2 ^ s) 1 0.

(** The quadrant of [x] and what is left of [x] once the nearest multiple
    of [pi / 2] is taken off, the latter at scale [2^(scale + 1)]. *)
Definition reduce (x : Z) : Z * Z :=
  let k := (4 * x + pi_fixed) / (2 * pi_fixed) in
  (k mod 4, 2 * x - k * pi_fixed).

(** Drops the bits of [r] below its [keep] leading ones. *)
Definition narrow (s r : Z) : Z * Z :=
  let d := Z.max 0 (Z.log2 (Z.abs r) - keep) in
  (s - d, Z.shiftr r d).

Definition fixed_of (sgn : bool) (m : positive) (e : Z) : Z :=
  Z.shiftl (if sgn then Zneg m else Zpos m) (e + scale).

Definition sin_finite (sgn : bool) (m : positive) (e : Z) : double :=
  let '(q, r) := reduce (fixed_of sgn m e) in
  let '(s, r') := narrow (scale + 1) r in
  of_scaled
    match q with
    | 0 => sin_fixed s r'
    | 1 => cos_fixed s r'
    | 2 => - sin_fixed s r'
    | _ => - cos_fixed s r'
    end (- s).

Definition cos_finite (sgn : bool) (m : positive) (e : Z) : double :=
  let '(q, r) := reduce (fixed_of sgn m e) in
  let '(s, r') := narrow (scale + 1) r in
  of_scaled
    match q with
    | 0 => cos_fixed s r'
    | 1 => - sin_fixed s r'
    | 2 => - cos_fixed s r'
    | _ => sin_fixed s r'
    end (- s).


Definition sin (x : double) : double :=
  match x with
  | B754_zero _ => x
  | B754_infinity _ => SSE2.default_nan
  | B754_nan _ => x
  | B754_finite s m e => sin_finite s m e
  end.

Definition cos (x : double) : double :=
  match x with
  | B754_zero _ => one
  | B754_infinity _ => SSE2.default_nan
  | B754_nan _ => x
  | B754_finite s m e => cos_finite s m e
  end.

(** [M_PI], the double nearest to pi: 0x1.921fb54442d18p+1. *)
Definition M_PI : double := B754_finite false 7074237752028440 (-51).

End RefMath.

(** A struct that was never assigned, for the evaluations below. *)
Definition junk : sbh_vec4 :=
  mk_sbh_vec4 (B754_nan false) (B754_nan false) (B754_nan false)
    (B754_nan false).

(** ** What the specification says, as predicates *)

Section Statements.

Variable mul_nan : double -> double -> bool.
Variables sin cos : double -> double.
Variable indeterminate : sbh_vec4.

(** The spatial part of the vector made from [(r, phi, theta, t)] compares
    equal to [(x, y, z)]. *)
Definition spatial_part_is (r phi theta t x y z : double) : Prop :=
  exists p,
    sbh_vec4_rect_from_schwarzschild mul_nan sin cos indeterminate
      r phi theta t
    = Some p
    /\ eqb (cell0 p) x = true
    /\ eqb (cell1 p) y = true
    /\ eqb (cell2 p) z = true.

(** Pole case: (0, 0, r) at theta = 0 and (0, 0, -r) at theta = pi. *)
Definition pole_case_as_specified (r phi t : double) : Prop :=
  spatial_part_is r phi zero t zero zero r
  /\ spatial_part_is r phi RefMath.M_PI t zero zero (- r)%double.

(** Origin case: (0, 0, 0) at r = 0. *)
Definition origin_case_as_specified (phi theta t : double) : Prop :=
  spatial_part_is zero phi theta t zero zero zero.

(** Oddness in r: each of the slots 0, 1 and 2 made from [-r] is the
    negation of the slot made from r, and slot 3 is the same. *)
Definition odd_in_r_as_specified (r phi theta t : double) : Prop :=
  exists p q,
    sbh_vec4_rect_from_schwarzschild mul_nan sin cos indeterminate
      r phi theta t
    = Some p
    /\ sbh_vec4_rect_from_schwarzschild mul_nan sin cos indeterminate
         (- r)%double phi theta t
       = Some q
    /\ cell0 q = (- cell0 p)%double
    /\ cell1 q = (- cell1 p)%double
    /\ cell2 q = (- cell2 p)%double
    /\ cell3 q = cell3 p.

End Statements.

(** ** Relations between doubles *)

(** [b] is the negation of [a], or both are NaN. *)
Definition negated (a b : double) : Prop :=
  if is_nan a then is_nan b = true else b = (- a)%double.

(** [x] is finite and [fabs (x)] is at most [fabs (r) * 2^-52], the latter
    rounded up to a multiple of [2^-1074]. *)
Definition negligible (x r : double) : Prop :=
  is_finite x = true
  /\ 2 ^ 52 * Z.abs (ulps x) <= Z.abs (ulps r) + (2 ^ 52 - 1).

(** [s * s + c * c] is 1 within [2^-32]. *)
Definition near_unit_circle (s c : double) : Prop :=
  2 ^ 32 * Z.abs (ulps s * ulps s + ulps c * ulps c - ulps_one * ulps_one)
  <= ulps_one * ulps_one.

(** [x * x + y * y + z * z] is [r * r] with a relative error below
    [10^-9], all products and sums being exact. *)
Definition squares_agree (x y z r : double) : Prop :=
  1000000000
  * Z.abs (ulps x * ulps x + ulps y * ulps y + ulps z * ulps z
           - ulps r * ulps r)
  < ulps r * ulps r.

(** ** Magnitudes of the data of [SFmul] *)

(** [a] is a zero, or a finite datum [m * 2^e] with [e <= eb] and
    [m * 2^e <= mb * 2^eb]. *)
Definition below (mb : positive) (eb : Z) (a : spec_float) : Prop :=
  match a with
  | S754_zero _ => True
  | S754_finite _ m e => e <= eb /\ Zpos m <= Zpos mb * 2 ^ (eb - e)
  | S754_infinity _ | S754_nan => False
  end.

(** [a] is a zero, or a finite datum [m * 2^e] with [m * 2^e <= 2^-k]. *)
Definition pow2_bounded (k : Z) (a : spec_float) : Prop :=
  match a with
  | S754_zero _ => True
  | S754_finite _ m e => e <= - k /\ Zpos m <= 2 ^ (- k - e)
  | S754_infinity _ | S754_nan => False
  end.

(** [a] is a zero, or a finite datum whose exponent is at least -1074. *)
Definition on_grid (a : spec_float) : Prop :=
  match a with
  | S754_zero _ => True
  | S754_finite _ m e => -1074 <= e
  | S754_infinity _ | S754_nan => False
  end.

(** What [k] right shifts of the integer [m] have made of it: the quotient
    by [2^k], and two flags that are both off exactly when nothing was
    lost. *)
Definition shr_inv (m k : Z) (mrs : shr_record) : Prop :=
  0 <= shr_m mrs
  /\ exists rem,
       0 <= rem < 2 ^ k
       /\ m = shr_m mrs * 2 ^ k + rem
       /\ (rem = 0 <-> shr_r mrs = false /\ shr_s mrs = false).

(** The datum that [binary_round_aux] assembles from a significand and an
    exponent. *)
Definition assemble (s : bool) (m e : Z) : spec_float :=
  match m with
  | 0 => S754_zero s
  | Zpos p => if e <=? emax - prec then S754_finite s p e else S754_infinity s
  | Zneg _ => S754_nan
  end.

(** * Properties *)

(** ** Signs in the products of [SFmul] *)

Section Signs.

Lemma xorb_negb_l (a b : bool) : xorb (negb a) b = negb (xorb a b).
Proof. destruct a, b; reflexivity. Qed.

Lemma xorb_negb_r (a b : bool) : xorb a (negb b) = negb (xorb a b).
Proof. destruct a, b; reflexivity. Qed.

(** Rounding to nearest does not look at the sign. *)
Lemma binary_round_aux_sign (s : bool) (m e : Z) (l : location) :
  binary_round_aux prec emax (negb s) m e l
  = SFopp (binary_round_aux prec emax s m e l).
Proof.
  unfold binary_round_aux.
  destruct (shr_fexp prec emax m e l) as [mrs' e'].
  destruct (shr_fexp prec emax _ e' loc_Exact) as [mrs'' e''].
  destruct (shr_m mrs''); try reflexivity.
  destruct (e'' <=? emax - prec); reflexivity.
Qed.

Lemma SFmul_opp_l (a b : spec_float) :
  SFmul prec emax (SFopp a) b = SFopp (SFmul prec emax a b).
Proof.
  destruct a as [sa | sa | | sa ma ea], b as [sb | sb | | sb mb eb];
    cbn [SFmul SFopp]; rewrite ?xorb_negb_l; try reflexivity.
  apply binary_round_aux_sign.
Qed.

Lemma SFmul_opp_r (a b : spec_float) :
  SFmul prec emax a (SFopp b) = SFopp (SFmul prec emax a b).
Proof.
  destruct a as [sa | sa | | sa ma ea], b as [sb | sb | | sb mb eb];
    cbn [SFmul SFopp]; rewrite ?xorb_negb_r; try reflexivity.
  apply binary_round_aux_sign.
Qed.

Lemma digits2_pos_shift (m : positive) :
  Zpos (digits2_pos (4503599627370496 * m)) = Zpos (digits2_pos m) + 52.
Proof.
  cbn [Pos.mul digits2_pos].
  rewrite !Pos2Z.inj_succ. lia.
Qed.

(** The product by 1.0 is exact: the 52 bits that the significand of 1.0
    brings are shifted out again, and all of them are zero. *)
Lemma SFmul_one_r (a : spec_float) :
  valid_binary prec emax a = true ->
  SFmul prec emax a (S754_finite false 4503599627370496 (-52)) = a.
Proof.
  destruct a as [s | s | | s m e]; intros Hv.
  - destruct s; reflexivity.
  - destruct s; reflexivity.
  - reflexivity.
  - unfold valid_binary, bounded, canonical_mantissa in Hv.
    apply andb_prop in Hv. destruct Hv as [Hc Hb].
    apply Z.eqb_eq in Hc.
    cbn [SFmul].
    rewrite Pos.mul_comm.
    unfold binary_round_aux, shr_fexp at 1.
    unfold Zdigits2. rewrite digits2_pos_shift.
    replace (Z.pos (digits2_pos m) + 52 + (e + -52))
      with (Z.pos (digits2_pos m) + e) by lia.
    rewrite Hc.
    replace (e - (e + -52)) with 52 by lia.
    cbn [Pos.mul shr shr_record_of_loc iter_pos shr_1 orb].
    cbn [shr_m loc_of_shr_record round_nearest_even].
    unfold shr_fexp. cbn [Zdigits2].
    replace (e + -52 + 52) with e by lia.
    rewrite Hc, Z.sub_diag. cbn [shr shr_record_of_loc shr_m].
    rewrite Hb. destruct s; reflexivity.
Qed.

End Signs.

(** ** Rounding a product *)

Section Rounding.

Lemma fexp_eq (x : Z) : fexp prec emax x = Z.max (x - 53) (-1074).
Proof. reflexivity. Qed.

Lemma digits2_pos_bounds (p : positive) :
  2 ^ (Zpos (digits2_pos p) - 1) <= Zpos p < 2 ^ Zpos (digits2_pos p).
Proof.
  induction p as [p IH | p IH | ]; cbn [digits2_pos].
  - rewrite Pos2Z.inj_succ.
    replace (Z.succ (Zpos (digits2_pos p)) - 1)
      with (Z.succ (Zpos (digits2_pos p) - 1)) by lia.
    rewrite !Z.pow_succ_r by lia. lia.
  - rewrite Pos2Z.inj_succ.
    replace (Z.succ (Zpos (digits2_pos p)) - 1)
      with (Z.succ (Zpos (digits2_pos p) - 1)) by lia.
    rewrite !Z.pow_succ_r by lia. lia.
  - cbn. lia.
Qed.

Lemma digits2_pos_le (p : positive) (k : Z) :
  0 <= k -> Zpos p < 2 ^ k -> Zpos (digits2_pos p) <= k.
Proof.
  intros Hk Hp.
  destruct (digits2_pos_bounds p) as [Hlo _].
  assert (H : 2 ^ (Zpos (digits2_pos p) - 1) < 2 ^ k) by lia.
  apply Z.pow_lt_mono_r_iff in H; lia.
Qed.

Lemma shr_inv_init (m : Z) :
  0 <= m -> shr_inv m 0 (Build_shr_record m false false).
Proof.
  intros Hm. split; [exact Hm | ]. exists 0. cbn.
  split; [lia | ]. split; [lia | ]. split; [now split | reflexivity].
Qed.

(** One right shift halves the quotient and folds the bit that falls off
    into the flags. *)
Lemma shr_1_inv (m k : Z) (mrs : shr_record) :
  0 <= k -> shr_inv m k mrs -> shr_inv m (k + 1) (shr_1 mrs).
Proof.
  intros Hk [Hm (rem & Hrem & Heq & Hz)].
  assert (Hp : 0 < 2 ^ k) by (apply Z.pow_pos_nonneg; lia).
  assert (H2 : 2 ^ (k + 1) = 2 * 2 ^ k) by (rewrite Z.pow_add_r by lia; lia).
  destruct mrs as [mm r s]. cbn [shr_m shr_r shr_s] in *.
  destruct mm as [ | [q | q | ] | q]; unfold shr_inv;
    cbn [shr_1 shr_m shr_r shr_s]; try lia.
  - split; [lia | ]. exists rem. rewrite H2.
    split; [lia | ]. split; [lia | ].
    rewrite Hz. destruct r, s; cbn; intuition congruence.
  - split; [lia | ]. exists (2 ^ k + rem). rewrite H2.
    split; [lia | ]. split; [lia | ].
    split; [lia | intros [H _]; discriminate H].
  - split; [lia | ]. exists rem. rewrite H2.
    split; [lia | ]. split; [lia | ].
    rewrite Hz. destruct r, s; cbn; intuition congruence.
  - split; [lia | ]. exists (2 ^ k + rem). rewrite H2.
    split; [lia | ]. split; [lia | ].
    split; [lia | intros [H _]; discriminate H].
Qed.

Lemma iter_pos_shr_inv (m : Z) (p : positive) :
  forall (k : Z) (mrs : shr_record),
    0 <= k -> shr_inv m k mrs ->
    shr_inv m (k + Zpos p) (iter_pos shr_1 p mrs).
Proof.
  induction p as [p IH | p IH | ]; intros k mrs Hk H; cbn [iter_pos].
  - replace (k + Zpos p~1) with (k + 1 + Zpos p + Zpos p) by lia.
    apply IH; [lia | ]. apply IH; [lia | ]. apply shr_1_inv; assumption.
  - replace (k + Zpos p~0) with (k + Zpos p + Zpos p) by lia.
    apply IH; [lia | ]. apply IH; assumption.
  - apply shr_1_inv; assumption.
Qed.

(** [shr_fexp] either leaves its argument alone or shifts it right to the
    exponent that [fexp] asks for. *)
Lemma shr_fexp_cases (m e : Z) (mrs' : shr_record) (e' : Z) :
  0 <= m ->
  shr_fexp prec emax m e loc_Exact = (mrs', e') ->
  let n := fexp prec emax (Zdigits2 m + e) - e in
  (n <= 0 /\ mrs' = Build_shr_record m false false /\ e' = e)
  \/ (0 < n /\ e' = e + n /\ shr_inv m n mrs').
Proof.
  intros Hm. unfold shr_fexp. cbn [shr_record_of_loc].
  destruct (fexp prec emax (Zdigits2 m + e) - e) as [ | p | p] eqn:Hn;
    cbn [shr]; intros H; injection H as <- <-; cbn zeta.
  - left. split; [lia | split; reflexivity].
  - right. split; [lia | split; [reflexivity | ]].
    apply (iter_pos_shr_inv m p 0); [lia | apply shr_inv_init, Hm].
  - left. split; [lia | split; reflexivity].
Qed.

(** Rounding to nearest adds at most one, and nothing when nothing was
    lost. *)
Lemma round_nearest_even_bounds (mrs : shr_record) :
  let m'' := round_nearest_even (shr_m mrs) (loc_of_shr_record mrs) in
  shr_m mrs <= m'' <= shr_m mrs + 1
  /\ (shr_r mrs = false /\ shr_s mrs = false -> m'' = shr_m mrs).
Proof.
  destruct mrs as [mm r s]. cbn [shr_m shr_r shr_s].
  destruct r, s; cbn [loc_of_shr_record round_nearest_even]; cbn zeta;
    try destruct (Z.even mm); split; try lia; intros [H1 H2];
    try discriminate; reflexivity.
Qed.

Section Below.

(** A double [mb * 2^eb] in canonical form. *)
Variable mb : positive.
Variable eb : Z.
Hypothesis Hbounded : bounded prec emax mb eb = true.

Lemma bound_exponent : eb <= 971.
Proof.
  unfold bounded in Hbounded. apply andb_prop in Hbounded.
  destruct Hbounded as [_ H]. apply Z.leb_le in H. exact H.
Qed.

Lemma bound_canonical : Z.max (Zpos (digits2_pos mb) + eb - 53) (-1074) = eb.
Proof.
  unfold bounded, canonical_mantissa in Hbounded.
  apply andb_prop in Hbounded. destruct Hbounded as [H _].
  apply Z.eqb_eq in H. rewrite fexp_eq in H. exact H.
Qed.

Lemma Zdigits2_below (m e : Z) :
  0 <= m -> e <= eb -> m <= Zpos mb * 2 ^ (eb - e) ->
  Zdigits2 m + e <= Zpos (digits2_pos mb) + eb.
Proof.
  intros Hm He Hb. destruct m as [ | p | p]; cbn [Zdigits2]; try lia.
  destruct (digits2_pos_bounds mb) as [_ Hhi].
  assert (Hlt : Zpos p < 2 ^ (Zpos (digits2_pos mb) + (eb - e))).
  { rewrite Z.pow_add_r by lia.
    assert (0 < 2 ^ (eb - e)) by (apply Z.pow_pos_nonneg; lia).
    nia. }
  apply digits2_pos_le in Hlt; lia.
Qed.

(** The last step of [binary_round_aux]: what stays below the bound is
    neither turned into an infinity nor pushed above the bound. *)
Lemma round_result_below (s : bool) (q e' : Z) :
  0 <= q -> e' <= eb -> q <= Zpos mb * 2 ^ (eb - e') ->
  below mb eb
    (let '(mrs'', e'') := shr_fexp prec emax q e' loc_Exact in
     match shr_m mrs'' with
     | 0 => S754_zero s
     | Zpos m =>
         if e'' <=? emax - prec then S754_finite s m e'' else S754_infinity s
     | Zneg _ => S754_nan
     end).
Proof.
  intros Hq He Hb.
  pose proof bound_exponent as Heb. pose proof bound_canonical as Hcan.
  destruct (shr_fexp prec emax q e' loc_Exact) as [mrs'' e''] eqn:Hshr.
  pose proof (Zdigits2_below q e' Hq He Hb) as Hd.
  apply shr_fexp_cases in Hshr; [ | exact Hq].
  rewrite fexp_eq in Hshr. cbn zeta in Hshr.
  change (emax - prec) with 971.
  destruct Hshr as [(Hn & -> & ->) | (Hn & -> & Hinv)]; cbn [shr_m].
  - destruct q as [ | p | p]; try lia; [exact I | ].
    assert (Hle : (e' <=? 971) = true) by (apply Z.leb_le; lia).
    rewrite Hle. cbn [below]. split; assumption.
  - destruct Hinv as [Hm (rem & Hrem & Heq & _)].
    remember (Z.max (Zdigits2 q + e' - 53) (-1074) - e') as n eqn:Hndef.
    destruct (shr_m mrs'') as [ | p | p]; try lia; [exact I | ].
    assert (He'' : e' + n <= eb) by (clear - Hndef Hd Hcan; lia).
    assert (Hle : (e' + n <=? 971) = true) by (apply Z.leb_le; lia).
    rewrite Hle. cbn [below]. split; [exact He'' | ].
    assert (Hpow : 2 ^ (eb - e') = 2 ^ (eb - (e' + n)) * 2 ^ n).
    { rewrite <- Z.pow_add_r by lia. f_equal. lia. }
    assert (Hn2 : 0 < 2 ^ n) by (apply Z.pow_pos_nonneg; lia).
    rewrite Hpow in Hb.
    apply Z.mul_le_mono_pos_r with (p := 2 ^ n); [exact Hn2 | lia].
Qed.

(** Rounding a positive integer multiple of a power of two that is at most
    [mb * 2^eb] gives a zero or a finite double that is at most
    [mb * 2^eb]. *)
Lemma binary_round_aux_below (s : bool) (m : positive) (e : Z) :
  e <= eb -> Zpos m <= Zpos mb * 2 ^ (eb - e) ->
  below mb eb (binary_round_aux prec emax s (Zpos m) e loc_Exact).
Proof.
  intros He Hb. pose proof bound_canonical as Hcan.
  unfold binary_round_aux.
  destruct (shr_fexp prec emax (Zpos m) e loc_Exact) as [mrs' e'] eqn:Hshr.
  pose proof (Zdigits2_below (Zpos m) e (Pos2Z.is_nonneg m) He Hb) as Hd.
  apply shr_fexp_cases in Hshr; [ | lia].
  rewrite fexp_eq in Hshr. cbn zeta in Hshr.
  pose proof (round_nearest_even_bounds mrs') as [Hr Hexact].
  destruct Hshr as [(Hn & -> & ->) | (Hn & -> & Hinv)].
  - cbn [shr_m loc_of_shr_record round_nearest_even].
    apply round_result_below; lia.
  - destruct Hinv as [Hm (rem & Hrem & Heq & Hz)].
    remember (Z.max (Zdigits2 (Zpos m) + e - 53) (-1074) - e) as n eqn:Hndef.
    assert (He' : e + n <= eb) by (clear - Hndef Hd Hcan; lia).
    assert (Hpow : 2 ^ (eb - e) = 2 ^ (eb - (e + n)) * 2 ^ n).
    { rewrite <- Z.pow_add_r by lia. f_equal. lia. }
    assert (Hn2 : 0 < 2 ^ n) by (apply Z.pow_pos_nonneg; lia).
    rewrite Hpow in Hb.
    apply round_result_below; [lia | exact He' | ].
    destruct (Z.eq_dec rem 0) as [H0 | H0].
    + apply Hz in H0. rewrite (Hexact H0).
      apply Z.mul_le_mono_pos_r with (p := 2 ^ n); [exact Hn2 | lia].
    + assert (Hlt : shr_m mrs' < Zpos mb * 2 ^ (eb - (e + n))).
      { apply Z.mul_lt_mono_pos_r with (p := 2 ^ n); [exact Hn2 | lia]. }
      lia.
Qed.

(** The product of two finite data whose exact product is at most
    [mb * 2^eb] is below the bound. *)
Lemma SFmul_below_finite (sa sb : bool) (ma mb' : positive) (ea eb' : Z) :
  ea + eb' <= eb ->
  Zpos ma * Zpos mb' <= Zpos mb * 2 ^ (eb - (ea + eb')) ->
  below mb eb
    (SFmul prec emax (S754_finite sa ma ea) (S754_finite sb mb' eb')).
Proof.
  intros He Hm. cbn [SFmul].
  apply binary_round_aux_below; [exact He | ].
  rewrite Pos2Z.inj_mul. exact Hm.
Qed.

(** The product of a datum below the bound by a datum of magnitude at
    most 1 is below the bound. *)
Lemma SFmul_below (a b : spec_float) :
  below mb eb a -> pow2_bounded 0 b -> below mb eb (SFmul prec emax a b).
Proof.
  destruct a as [sa | sa | | sa ma ea], b as [sb | sb | | sb mb' eb'];
    cbn [below pow2_bounded]; try tauto;
    try (intros _ _; exact I).
  intros [Hea Hma] [Heb Hmb].
  apply SFmul_below_finite; [lia | ].
  replace (eb - (ea + eb')) with ((eb - ea) + (- 0 - eb')) by lia.
  rewrite Z.pow_add_r by lia.
  assert (0 < 2 ^ (eb - ea)) by (apply Z.pow_pos_nonneg; lia).
  assert (0 < 2 ^ (- 0 - eb')) by (apply Z.pow_pos_nonneg; lia).
  nia.
Qed.

Lemma below_fabs_le (s : bool) (a : spec_float) :
  below mb eb a ->
  SFleb (SFabs a) (SFabs (S754_finite s mb eb)) = true.
Proof.
  unfold SFleb.
  destruct a as [sa | sa | | sa m e]; cbn [below SFabs SFcompare];
    try tauto.
  intros [He Hm].
  destruct (e ?= eb) eqn:Hcmp; try reflexivity.
  - apply Z.compare_eq in Hcmp. subst e.
    rewrite Z.sub_diag, Z.mul_1_r in Hm.
    assert (Hle : (m <= mb)%positive) by exact Hm.
    apply Pos.compare_le_iff in Hle.
    change (Pos.compare_cont Eq m mb) with (Pos.compare m mb).
    destruct (Pos.compare m mb); try reflexivity. now elim Hle.
  - assert (Hgt : e > eb) by exact Hcmp. lia.
Qed.

Lemma below_self (s : bool) : below mb eb (S754_finite s mb eb).
Proof.
  cbn [below]. split; [lia | ]. rewrite Z.sub_diag, Z.mul_1_r. lia.
Qed.

End Below.

(** A datum of magnitude at most [2^-k] is a zero or [m * 2^e] with
    [m <= 2^(-k-e)]. *)
Lemma valid_pow2_bounded (k : Z) (a : spec_float) :
  valid_binary prec emax a = true ->
  SFleb (SFabs a) (S754_finite false 4503599627370496 (-52 - k)) = true ->
  pow2_bounded k a.
Proof.
  destruct a as [s | s | | s m e]; cbn [pow2_bounded]; try tauto;
    try (intros _ H; discriminate H).
  unfold valid_binary, bounded, canonical_mantissa.
  intros Hv Hle. apply andb_prop in Hv. destruct Hv as [Hc _].
  apply Z.eqb_eq in Hc. rewrite fexp_eq in Hc.
  destruct (digits2_pos_bounds m) as [_ Hhi].
  assert (Hd : Zpos (digits2_pos m) <= 53) by lia.
  assert (Hm : 2 ^ Zpos (digits2_pos m) <= 2 ^ 53)
    by (apply Z.pow_le_mono_r; lia).
  change (2 ^ 53) with 9007199254740992 in Hm.
  unfold SFleb in Hle. cbn [SFabs SFcompare] in Hle.
  destruct (e ?= -52 - k) eqn:Hcmp.
  - apply Z.compare_eq in Hcmp. subst e.
    replace (- k - (-52 - k)) with 52 by lia.
    change (2 ^ 52) with 4503599627370496.
    destruct (Pos.compare_cont Eq m 4503599627370496) eqn:Hm2;
      try discriminate Hle.
    + apply (Pos.compare_eq m) in Hm2. subst m.
      split; [lia | apply Z.le_refl].
    + apply (Pos.compare_lt_iff m) in Hm2.
      split; [lia | apply Pos2Z.pos_le_pos, Pos.lt_le_incl, Hm2].
  - assert (Hlt : e < -52 - k) by exact Hcmp. split; [lia | ].
    assert (Hp : 2 ^ 53 <= 2 ^ (- k - e)) by (apply Z.pow_le_mono_r; lia).
    change (2 ^ 53) with 9007199254740992 in Hp. lia.
  - discriminate Hle.
Qed.

End Rounding.

(** ** How far a rounded product is from the exact one *)

Section RoundingError.

Lemma Zdigits2_pos_bounds (q : Z) :
  0 < q -> 2 ^ (Zdigits2 q - 1) <= q.
Proof.
  destruct q as [ | p | p]; try lia. intros _. cbn [Zdigits2].
  apply digits2_pos_bounds.
Qed.

(** [binary_round_aux] returns [m3 * 2^e3] for some [e3] that is at least
    [e] and at least -1074, within two units of [2^e3] of [m * 2^e]; unless
    nothing was lost or [e3] is -1074, the unit is at most [m * 2^(e-51)]. *)
Lemma binary_round_aux_error (s : bool) (m : positive) (e : Z) :
  exists m3 e3,
    binary_round_aux prec emax s (Zpos m) e loc_Exact = assemble s m3 e3
    /\ 0 <= m3 /\ e <= e3 /\ -1074 <= e3
    /\ Z.abs (m3 * 2 ^ (e3 - e) - Zpos m) <= 2 * 2 ^ (e3 - e)
    /\ (m3 * 2 ^ (e3 - e) = Zpos m
        \/ e3 = -1074
        \/ 2 ^ 51 * 2 ^ (e3 - e) <= Zpos m).
Proof.
  unfold binary_round_aux.
  destruct (shr_fexp prec emax (Zpos m) e loc_Exact) as [mrs' e'] eqn:H1.
  apply shr_fexp_cases in H1; [ | lia].
  rewrite fexp_eq in H1. cbn zeta in H1. cbn [Zdigits2] in H1.
  pose proof (digits2_pos_bounds m) as [Hdlo Hdhi].
  pose proof (round_nearest_even_bounds mrs') as [Hr Hexact].
  destruct H1 as [(Hn & -> & ->) | (Hn & -> & Hinv)].
  - (* nothing is shifted out *)
    cbn [shr_m loc_of_shr_record round_nearest_even].
    destruct (shr_fexp prec emax (Zpos m) e loc_Exact) as [mrs'' e'']
      eqn:H2.
    apply shr_fexp_cases in H2; [ | lia].
    rewrite fexp_eq in H2. cbn zeta in H2. cbn [Zdigits2] in H2.
    destruct H2 as [(_ & -> & ->) | (Hn2 & _)]; [ | lia].
    exists (Zpos m), e. cbn [shr_m]. rewrite Z.sub_diag. cbn [Z.pow].
    split; [reflexivity | ].
    split; [lia | ]. split; [lia | ]. split; [lia | ].
    split; [lia | left; lia].
  - (* a first shift *)
    destruct Hinv as [Hm' (rem & Hrem & Heq & Hz)].
    remember (Z.max (Zpos (digits2_pos m) + e - 53) (-1074) - e) as n
      eqn:Hndef.
    set (m'' := round_nearest_even (shr_m mrs') (loc_of_shr_record mrs'))
      in *.
    assert (Hpn : 0 < 2 ^ n) by (apply Z.pow_pos_nonneg; lia).
    assert (Herr1 : Z.abs (m'' * 2 ^ n - Zpos m) <= 2 ^ n).
    { destruct (Z.eq_dec rem 0) as [H0 | H0].
      - apply Hz in H0. rewrite (Hexact H0). lia.
      - nia. }
    destruct (shr_fexp prec emax m'' (e + n) loc_Exact) as [mrs'' e'']
      eqn:H2.
    apply shr_fexp_cases in H2; [ | lia].
    rewrite fexp_eq in H2. cbn zeta in H2.
    destruct H2 as [(Hn2 & -> & ->) | (Hn2 & -> & Hinv2)].
    + (* no second shift *)
      exists m'', (e + n). cbn [shr_m].
      replace (e + n - e) with n by lia.
      split; [reflexivity | ].
      split; [lia | ]. split; [lia | ]. split; [lia | ].
      split; [lia | ].
      destruct (Z.eq_dec rem 0) as [H0 | H0].
      * left. pose proof H0 as H0'. apply Hz in H0'.
        rewrite (Hexact H0'). lia.
      * right.
        destruct (Z.eq_dec (e + n) (-1074)) as [Hg | Hg]; [left; exact Hg | ].
        right.
        assert (Hn53 : n = Zpos (digits2_pos m) - 53) by lia.
        assert (Hp2 : 2 ^ 51 * 2 ^ n = 2 ^ (Zpos (digits2_pos m) - 2)).
        { rewrite <- Z.pow_add_r by lia. f_equal. lia. }
        rewrite Hp2.
        assert (2 ^ (Zpos (digits2_pos m) - 2)
                <= 2 ^ (Zpos (digits2_pos m) - 1))
          by (apply Z.pow_le_mono_r; lia).
        lia.
    + (* a second shift *)
      destruct Hinv2 as [Hm3 (rem2 & Hrem2 & Heq2 & _)].
      remember (Z.max (Zdigits2 m'' + (e + n) - 53) (-1074) - (e + n)) as n2
        eqn:Hn2def.
      assert (Hpn2 : 0 < 2 ^ n2) by (apply Z.pow_pos_nonneg; lia).
      exists (shr_m mrs''), (e + n + n2).
      replace (e + n + n2 - e) with (n + n2) by lia.
      rewrite Z.pow_add_r by lia.
      split; [reflexivity | ].
      split; [lia | ]. split; [lia | ]. split; [lia | ].
      assert (Hpos'' : 0 < m'').
      { destruct (Z.eq_dec m'' 0) as [H0 | H0]; [ | lia].
        rewrite H0 in Hn2def. cbn [Zdigits2] in Hn2def. lia. }
      split.
      * assert (Hs : shr_m mrs'' * (2 ^ n * 2 ^ n2) - Zpos m
                     = (m'' * 2 ^ n - Zpos m) - rem2 * 2 ^ n) by nia.
        rewrite Hs.
        assert (0 <= rem2 * 2 ^ n <= (2 ^ n2 - 1) * 2 ^ n) by nia.
        assert (2 ^ n <= 2 ^ n * 2 ^ n2) by nia.
        lia.
      * right.
        destruct (Z.eq_dec (e + n + n2) (-1074)) as [Hg | Hg];
          [left; exact Hg | ].
        right.
        pose proof (Zdigits2_pos_bounds m'' Hpos'') as Hd''.
        assert (Hn253 : n2 = Zdigits2 m'' - 53) by lia.
        assert (Hp2 : 2 ^ 52 * 2 ^ n2 = 2 ^ (Zdigits2 m'' - 1)).
        { rewrite <- Z.pow_add_r by lia. f_equal. lia. }
        assert (Hle1 : 2 ^ 52 * 2 ^ n2 * 2 ^ n <= m'' * 2 ^ n) by nia.
        assert (Hle2 : m'' * 2 ^ n <= Zpos m + 2 ^ n) by lia.
        assert (Hle3 : 2 * 2 ^ n <= 2 ^ n * 2 ^ n2).
        { assert (2 <= 2 ^ n2).
          { change 2 with (2 ^ 1) at 1. apply Z.pow_le_mono_r; lia. }
          nia. }
        change (2 ^ 52) with 4503599627370496 in Hle1.
        change (2 ^ 51) with 2251799813685248. nia.
Qed.

(** The exponent of a rounded datum is at least -1074. *)
Lemma binary_round_aux_on_grid (s : bool) (m : positive) (e : Z) :
  match binary_round_aux prec emax s (Zpos m) e loc_Exact with
  | S754_finite _ _ e3 => -1074 <= e3
  | _ => True
  end.
Proof.
  destruct (binary_round_aux_error s m e)
    as (m3 & e3 & -> & _ & _ & He3 & _).
  unfold assemble. destruct m3; try exact I.
  destruct (e3 <=? emax - prec); [exact He3 | exact I].
Qed.

End RoundingError.

(** ** Products and negations of doubles *)

Section DoubleFacts.

Variable mul_nan : double -> double -> bool.

Local Notation "a * b" := (mul mul_nan a b) : double_scope.

Lemma to_spec_of_spec (ns : bool) (x : spec_float) :
  to_spec (of_spec ns x) = x.
Proof. destruct x; reflexivity. Qed.

Lemma to_spec_mul (a b : double) :
  to_spec (a * b)%double = SFmul prec emax (to_spec a) (to_spec b).
Proof. apply to_spec_of_spec. Qed.

Lemma to_spec_neg (a : double) : to_spec (- a)%double = SFopp (to_spec a).
Proof. destruct a; reflexivity. Qed.

(** Two doubles that differ only in the sign bit of a NaN are equal once
    one of them is not a NaN. *)
Lemma to_spec_inj (a b : double) :
  is_nan a = false -> to_spec a = to_spec b -> a = b.
Proof.
  destruct a, b; cbn; intros Hn H; try discriminate; congruence.
Qed.

Lemma is_nan_to_spec (a : double) :
  is_nan a = match to_spec a with S754_nan => true | _ => false end.
Proof. destruct a; reflexivity. Qed.

Lemma is_nan_neg (a : double) : is_nan (- a)%double = is_nan a.
Proof. destruct a; reflexivity. Qed.

(** A NaN operand makes the product a NaN. *)
Lemma mul_nan_l (a b : double) :
  is_nan a = true -> is_nan (a * b)%double = true.
Proof.
  intros Ha. rewrite is_nan_to_spec, to_spec_mul.
  destruct a; try discriminate Ha. reflexivity.
Qed.

Lemma mul_nan_r (a b : double) :
  is_nan b = true -> is_nan (a * b)%double = true.
Proof.
  intros Hb. rewrite is_nan_to_spec, to_spec_mul.
  destruct b; try discriminate Hb. destruct a; reflexivity.
Qed.

(** Whether a product is a NaN does not depend on the signs. *)
Lemma is_nan_mul_neg_l (a b : double) :
  is_nan (- a * b)%double = is_nan (a * b)%double.
Proof.
  rewrite !is_nan_to_spec, !to_spec_mul, to_spec_neg, SFmul_opp_l.
  destruct (SFmul prec emax (to_spec a) (to_spec b)); reflexivity.
Qed.

Lemma is_nan_mul_neg_r (a b : double) :
  is_nan (a * - b)%double = is_nan (a * b)%double.
Proof.
  rewrite !is_nan_to_spec, !to_spec_mul, to_spec_neg, SFmul_opp_r.
  destruct (SFmul prec emax (to_spec a) (to_spec b)); reflexivity.
Qed.

(** A product that is not a NaN is negated with either factor. *)
Lemma mul_neg_l (a b : double) :
  is_nan (a * b)%double = false -> (- a * b = - (a * b))%double.
Proof.
  intros Hn. symmetry. apply to_spec_inj.
  - rewrite is_nan_neg. exact Hn.
  - rewrite to_spec_neg, !to_spec_mul, to_spec_neg, SFmul_opp_l.
    reflexivity.
Qed.

Lemma mul_neg_r (a b : double) :
  is_nan (a * b)%double = false -> (a * - b = - (a * b))%double.
Proof.
  intros Hn. symmetry. apply to_spec_inj.
  - rewrite is_nan_neg. exact Hn.
  - rewrite to_spec_neg, !to_spec_mul, to_spec_neg, SFmul_opp_r.
    reflexivity.
Qed.

Lemma negated_neg (a : double) : negated a (- a)%double.
Proof. unfold negated. destruct a; reflexivity. Qed.

Lemma negated_same_nan (a b : double) : negated a b -> is_nan b = is_nan a.
Proof.
  unfold negated. destruct (is_nan a) eqn:Ha; intros H; [exact H | ].
  subst b. rewrite is_nan_neg. exact Ha.
Qed.

(** Negating a factor negates the product, unless the product is a NaN. *)
Lemma mul_negated_l (a a' b : double) :
  negated a a' -> negated (a * b)%double (a' * b)%double.
Proof.
  intros H. pose proof (negated_same_nan a a' H) as Hsame.
  unfold negated in *. destruct (is_nan a) eqn:Ha.
  - rewrite (mul_nan_l a b Ha). apply mul_nan_l. exact H.
  - subst a'. destruct (is_nan (a * b)%double) eqn:Hab.
    + rewrite is_nan_mul_neg_l. exact Hab.
    + apply mul_neg_l. exact Hab.
Qed.

Lemma mul_negated_r (a b b' : double) :
  negated b b' -> negated (a * b)%double (a * b')%double.
Proof.
  intros H. unfold negated in *. destruct (is_nan b) eqn:Hb.
  - rewrite (mul_nan_r a b Hb). apply mul_nan_r. exact H.
  - subst b'. destruct (is_nan (a * b)%double) eqn:Hab.
    + rewrite is_nan_mul_neg_r. exact Hab.
    + apply mul_neg_r. exact Hab.
Qed.

(** The product of a double that is not a NaN by 1.0 is that double. *)
Lemma mul_one_r (a : double) :
  valid a = true -> is_nan a = false -> (a * one)%double = a.
Proof.
  intros Hv Hn. symmetry. apply to_spec_inj; [exact Hn | ].
  rewrite to_spec_mul. symmetry. apply SFmul_one_r. exact Hv.
Qed.

Lemma mul_minus_one_r (a : double) :
  valid a = true -> is_nan a = false -> (a * - one)%double = (- a)%double.
Proof.
  intros Hv Hn.
  rewrite mul_neg_r; rewrite mul_one_r by assumption;
    [reflexivity | exact Hn].
Qed.

(** A finite double times a zero is a zero, on either side. *)
Lemma mul_zero_r (a b : double) :
  is_finite a = true -> is_zero b = true -> is_zero (a * b)%double = true.
Proof.
  destruct a, b; cbn; intros Ha Hb; try discriminate; reflexivity.
Qed.

Lemma mul_zero_l (a b : double) :
  is_zero a = true -> is_finite b = true -> is_zero (a * b)%double = true.
Proof.
  destruct a, b; cbn; intros Ha Hb; try discriminate; reflexivity.
Qed.

(** [a == 0.0] holds of both zeros and of nothing else. *)
Lemma eqb_zero (a : double) : eqb a zero = is_zero a.
Proof. destruct a as [s | s | s | s m e]; try destruct s; reflexivity. Qed.

(** A NaN compares equal to nothing. *)
Lemma eqb_nan_l (a b : double) : is_nan a = true -> eqb a b = false.
Proof. destruct a; try discriminate. reflexivity. Qed.

(** A product whose left factor is an infinity or a NaN is an infinity or a
    NaN. *)
Lemma mul_not_finite_l (a b : double) :
  is_finite a = false -> is_finite (a * b)%double = false.
Proof.
  destruct a as [sa | sa | sa | sa ma ea]; cbn [is_finite]; intros Ha;
    try discriminate Ha; destruct b; reflexivity.
Qed.

(** An infinity times a zero is a NaN. *)
Lemma mul_infinity_zero (a b : double) :
  is_finite a = false -> is_zero b = true -> is_nan (a * b)%double = true.
Proof.
  destruct a as [sa | sa | sa | sa ma ea]; cbn [is_finite]; intros Ha;
    try discriminate Ha; destruct b; cbn [is_zero]; intros Hb;
    try discriminate Hb; reflexivity.
Qed.

Lemma below_finite (mb : positive) (eb : Z) (a : double) :
  below mb eb (to_spec a) -> is_finite a = true.
Proof. destruct a; cbn; tauto. Qed.

Lemma pow2_bounded_finite (k : Z) (a : double) :
  pow2_bounded k (to_spec a) -> is_finite a = true.
Proof. destruct a; cbn [to_spec pow2_bounded is_finite]; tauto. Qed.

(** A double of magnitude at most 1 is a zero or [m * 2^e] with
    [m <= 2^(-e)]. *)
Lemma valid_unit_bounded (a : double) :
  valid a = true -> fabs_le_one a = true -> pow2_bounded 0 (to_spec a).
Proof.
  intros Hv Hle. apply valid_pow2_bounded; [exact Hv | exact Hle].
Qed.

(** Multiplying by doubles of magnitude at most 1 does not leave the
    finite doubles and does not increase the magnitude. *)
Lemma mul_shrinks (a b : double) :
  valid a = true -> is_finite a = true ->
  valid b = true -> fabs_le_one b = true ->
  is_finite (a * b)%double = true /\ fabs_le (a * b)%double a = true.
Proof.
  intros Hva Hfa Hvb Hb.
  apply valid_unit_bounded in Hb; [ | exact Hvb].
  destruct a as [s | s | s | s m e]; try discriminate Hfa.
  - destruct b; cbn [to_spec pow2_bounded] in Hb; try tauto;
      split; reflexivity.
  - assert (H : below m e (to_spec (B754_finite s m e * b)%double)).
    { rewrite to_spec_mul.
      apply (SFmul_below m e Hva); [apply (below_self m e s) | exact Hb]. }
    split; [eapply below_finite, H | ].
    unfold fabs_le. apply (below_fabs_le m e s). exact H.
Qed.

Lemma mul_shrinks_twice (a b c : double) :
  valid a = true -> is_finite a = true ->
  valid b = true -> fabs_le_one b = true ->
  valid c = true -> fabs_le_one c = true ->
  is_finite (a * b * c)%double = true
  /\ fabs_le (a * b * c)%double a = true.
Proof.
  intros Hva Hfa Hvb Hb Hvc Hc.
  apply valid_unit_bounded in Hb; [ | exact Hvb].
  apply valid_unit_bounded in Hc; [ | exact Hvc].
  destruct a as [s | s | s | s m e]; try discriminate Hfa.
  - destruct b; cbn [to_spec pow2_bounded] in Hb; try tauto;
      destruct c; cbn [to_spec pow2_bounded] in Hc; try tauto;
      split; reflexivity.
  - assert (H : below m e (to_spec (B754_finite s m e * b)%double)).
    { rewrite to_spec_mul.
      apply (SFmul_below m e Hva); [apply (below_self m e s) | exact Hb]. }
    assert (H' : below m e (to_spec (B754_finite s m e * b * c)%double)).
    { rewrite to_spec_mul.
      apply (SFmul_below m e Hva); [exact H | exact Hc]. }
    split; [eapply below_finite, H' | ].
    unfold fabs_le. apply (below_fabs_le m e s). exact H'.
Qed.

End DoubleFacts.


(** ** Doubles as multiples of [2^-1074] *)

Section Ulps.

Variable mul_nan : double -> double -> bool.

Local Notation "a * b" := (mul mul_nan a b) : double_scope.

Lemma ulps_one_pos : 0 < ulps_one.
Proof. unfold ulps_one. apply Z.pow_pos_nonneg; lia. Qed.

Lemma valid_on_grid (a : double) :
  valid a = true -> is_finite a = true -> on_grid (to_spec a).
Proof.
  destruct a as [s | s | s | s m e]; cbn [is_finite to_spec on_grid];
    try discriminate; try tauto.
  unfold valid, valid_binary, bounded, canonical_mantissa. cbn [to_spec].
  intros Hv _. apply andb_prop in Hv. destruct Hv as [Hc _].
  apply Z.eqb_eq in Hc. rewrite fexp_eq in Hc. lia.
Qed.

(** The exponent of a finite product is at least -1074. *)
Lemma mul_on_grid (a b : double) :
  is_finite (a * b)%double = true -> on_grid (to_spec (a * b)%double).
Proof.
  intros Hf. rewrite to_spec_mul.
  assert (Hspec : match SFmul prec emax (to_spec a) (to_spec b) with
                  | S754_finite _ _ e3 => -1074 <= e3
                  | _ => True
                  end).
  { destruct a as [sa | sa | sa | sa ma ea], b as [sb | sb | sb | sb mb eb];
      cbn [to_spec SFmul]; try exact I.
    apply binary_round_aux_on_grid. }
  unfold mul in Hf.
  destruct (SFmul prec emax (to_spec a) (to_spec b));
    cbn [of_spec is_finite] in Hf; try discriminate Hf;
    cbn [on_grid]; [exact I | exact Hspec].
Qed.

(** A double of magnitude at most 1 is at most [ulps_one] multiples. *)
Lemma ulps_unit_bounded (a : double) :
  pow2_bounded 0 (to_spec a) -> on_grid (to_spec a) ->
  Z.abs (ulps a) <= ulps_one.
Proof.
  pose proof ulps_one_pos as HU.
  destruct a as [s | s | s | s m e];
    cbn [to_spec pow2_bounded on_grid ulps]; try tauto; try lia.
  intros [He Hm] Hg.
  assert (Hp : 0 < 2 ^ (e + 1074)) by (apply Z.pow_pos_nonneg; lia).
  assert (Hu : ulps_one = 2 ^ (- 0 - e) * 2 ^ (e + 1074)).
  { unfold ulps_one. rewrite <- Z.pow_add_r by lia. f_equal. lia. }
  rewrite Hu. destruct s; nia.
Qed.

(** A double that is at least [DBL_MIN] is at least [2^52] multiples. *)
Lemma ulps_at_least_DBL_MIN (r : double) :
  valid r = true -> leb DBL_MIN r = true -> is_finite r = true ->
  4503599627370496 <= ulps r.
Proof.
  destruct r as [s | s | s | s m e]; cbn [is_finite];
    try (intros _ _ H; discriminate H);
    try (intros _ H _; destruct s; discriminate H).
  unfold valid, valid_binary, bounded, canonical_mantissa. cbn [to_spec].
  intros Hv Hle _. apply andb_prop in Hv. destruct Hv as [Hc _].
  apply Z.eqb_eq in Hc. rewrite fexp_eq in Hc.
  destruct (digits2_pos_bounds m) as [Hlo _].
  unfold leb, SFleb, DBL_MIN in Hle. cbn [to_spec SFcompare] in Hle.
  destruct s; [discriminate Hle | ].
  cbn [ulps].
  destruct (-1074 ?= e) eqn:Hcmp.
  - apply Z.compare_eq in Hcmp. subst e.
    replace (-1074 + 1074) with 0 by lia. rewrite Z.pow_0_r, Z.mul_1_r.
    destruct (Pos.compare_cont Eq 4503599627370496 m) eqn:Hm2;
      try discriminate Hle.
    + apply (Pos.compare_eq 4503599627370496 m) in Hm2. subst m.
      apply Z.le_refl.
    + apply (Pos.compare_lt_iff 4503599627370496 m) in Hm2.
      apply Pos2Z.pos_le_pos, Pos.lt_le_incl, Hm2.
  - assert (Hlt : -1074 < e) by exact Hcmp.
    assert (Hd : Zpos (digits2_pos m) = 53) by lia.
    rewrite Hd in Hlo. change (2 ^ (53 - 1)) with 4503599627370496 in Hlo.
    assert (0 < 2 ^ (e + 1074)) by (apply Z.pow_pos_nonneg; lia).
    nia.
  - discriminate Hle.
Qed.

Lemma ulps_assemble (ns s : bool) (m3 e3 : Z) :
  0 <= m3 ->
  is_finite (of_spec ns (assemble s m3 e3)) = true ->
  ulps (of_spec ns (assemble s m3 e3))
  = if s then - (m3 * 2 ^ (e3 + 1074)) else m3 * 2 ^ (e3 + 1074).
Proof.
  unfold assemble. destruct m3 as [ | p | p]; try lia; intros _.
  - destruct s; reflexivity.
  - destruct (e3 <=? emax - prec); cbn [of_spec is_finite ulps];
      [reflexivity | discriminate].
Qed.

Lemma error_arith (M X K U m : Z) :
  0 < K -> 0 < X -> 0 <= U -> 0 <= m ->
  Z.abs M <= 2 * X ->
  M = 0 \/ X * K = U \/ 2251799813685248 * X <= m ->
  1125899906842624 * (Z.abs M * K) <= 2251799813685248 * U + m * K.
Proof.
  intros HK HX HU Hm HM [H0 | [HXK | Hn]].
  - subst M. cbn [Z.abs]. nia.
  - subst U. nia.
  - nia.
Qed.

(** A finite product is within [2^-50] of the exact product, relatively,
    or within two multiples of [2^-1074]. *)
Lemma mul_error (a b : double) :
  on_grid (to_spec a) -> on_grid (to_spec b) ->
  is_finite (a * b)%double = true ->
  1125899906842624
  * Z.abs (ulps (a * b)%double * ulps_one - ulps a * ulps b)
  <= 2251799813685248 * ulps_one + Z.abs (ulps a * ulps b).
Proof.
  pose proof ulps_one_pos as HU.
  destruct a as [sa | sa | sa | sa ma ea], b as [sb | sb | sb | sb mb eb];
    cbn [to_spec on_grid]; try tauto; intros Ha Hb Hf;
    try (cbn [mul to_spec SFmul of_spec ulps]; cbn [Z.abs];
         rewrite ?Z.mul_0_r, ?Z.mul_0_l; cbn [Z.sub Z.opp Z.add Z.abs];
         lia).
  unfold mul in *. cbn [to_spec SFmul] in *.
  destruct (binary_round_aux_error (xorb sa sb) (ma * mb) (ea + eb))
    as (m3 & e3 & Heq & Hm3 & He3 & Hg3 & Herr & Hcase).
  rewrite Heq in *. clear Heq.
  set (e := ea + eb) in *.
  set (K := 2 ^ (e + 2148)).
  set (X := 2 ^ (e3 - e)) in *.
  assert (HK : 0 < K) by (apply Z.pow_pos_nonneg; lia).
  assert (HX : 0 < X) by (apply Z.pow_pos_nonneg; lia).
  assert (HXK : X * K = 2 ^ (e3 + 1074) * ulps_one).
  { unfold X, K, ulps_one. rewrite <- !Z.pow_add_r by lia. f_equal. lia. }
  assert (HAB : 2 ^ (ea + 1074) * 2 ^ (eb + 1074) = K).
  { unfold K, e. rewrite <- Z.pow_add_r by lia. f_equal. lia. }
  assert (Hcase' : m3 * X - Zpos (ma * mb) = 0
                   \/ X * K = ulps_one
                   \/ 2251799813685248 * X <= Zpos (ma * mb)).
  { destruct Hcase as [H | [H | H]].
    - left. lia.
    - right. left. rewrite HXK, H. change (2 ^ (-1074 + 1074)) with 1. lia.
    - right. right. exact H. }
  pose proof (error_arith (m3 * X - Zpos (ma * mb)) X K ulps_one
                (Zpos (ma * mb)) HK HX (Z.lt_le_incl _ _ HU)
                (Pos2Z.is_nonneg _) Herr Hcase') as Hfin.
  rewrite Pos2Z.inj_mul in Hfin.
  assert (Hprod : Z.abs (ulps (B754_finite sa ma ea)
                         * ulps (B754_finite sb mb eb))
                  = Zpos ma * Zpos mb * K).
  { cbn [ulps]. rewrite <- HAB.
    assert (0 < 2 ^ (ea + 1074)) by (apply Z.pow_pos_nonneg; lia).
    assert (0 < 2 ^ (eb + 1074)) by (apply Z.pow_pos_nonneg; lia).
    destruct sa, sb; cbn zeta; nia. }
  rewrite Hprod.
  assert (Hdiff : Z.abs (ulps (of_spec
                                 (mul_nan (B754_finite sa ma ea)
                                    (B754_finite sb mb eb))
                                 (assemble (xorb sa sb) m3 e3))
                         * ulps_one
                         - ulps (B754_finite sa ma ea)
                           * ulps (B754_finite sb mb eb))
                  = Z.abs (m3 * X - Zpos ma * Zpos mb) * K).
  { rewrite (ulps_assemble _ _ _ _ Hm3 Hf).
    replace (Z.abs (m3 * X - Zpos ma * Zpos mb) * K)
      with (Z.abs ((m3 * X - Zpos ma * Zpos mb) * K))
      by (rewrite Z.abs_mul, (Z.abs_eq K) by lia; reflexivity).
    replace ((m3 * X - Zpos ma * Zpos mb) * K)
      with (m3 * (2 ^ (e3 + 1074) * ulps_one)
            - Zpos ma * Zpos mb * (2 ^ (ea + 1074) * 2 ^ (eb + 1074)))
      by (rewrite HAB, <- HXK; ring).
    cbn [ulps].
    destruct sa, sb; cbn [xorb]; cbn zeta;
      first [ f_equal; ring | rewrite <- Z.abs_opp; f_equal; ring ]. }
  rewrite Hdiff. exact Hfin.
Qed.

End Ulps.

(** ** Products by a factor of magnitude at most [2^-52] *)

Section Negligible.

Variable mul_nan : double -> double -> bool.

Local Notation "a * b" := (mul mul_nan a b) : double_scope.

(** For a double [mr * 2^er] there is a double [mb * 2^eb] that is
    [mr * 2^(er-52)] rounded up to a multiple of [2^-1074]. *)
Lemma negligible_bound (mr : positive) (er : Z) :
  bounded prec emax mr er = true ->
  exists (mb : positive) (eb : Z),
    bounded prec emax mb eb = true
    /\ -1074 <= eb
    /\ (forall (ms : positive) (es : Z),
          es <= -52 -> Zpos ms <= 2 ^ (- 52 - es) ->
          er + es <= eb
          /\ Zpos mr * Zpos ms <= Zpos mb * 2 ^ (eb - (er + es)))
    /\ 2 ^ 52 * (Zpos mb * 2 ^ (eb + 1074))
       <= Zpos mr * 2 ^ (er + 1074) + (2 ^ 52 - 1).
Proof.
  intros Hbd. pose proof Hbd as Hbd'.
  unfold bounded, canonical_mantissa in Hbd'.
  apply andb_prop in Hbd'. destruct Hbd' as [Hc Hb].
  apply Z.eqb_eq in Hc. rewrite fexp_eq in Hc.
  apply Z.leb_le in Hb. change (emax - prec) with 971 in Hb.
  destruct (digits2_pos_bounds mr) as [Hlo Hhi].
  destruct (Z_le_gt_dec (-1022) er) as [Hbig | Hsmall].
  - (* [mr * 2^(er-52)] is a double *)
    exists mr, (er - 52).
    split.
    { unfold bounded, canonical_mantissa. apply andb_true_intro. split.
      - apply Z.eqb_eq. rewrite fexp_eq. lia.
      - apply Z.leb_le. change (emax - prec) with 971. lia. }
    split; [lia | ]. split.
    { intros ms es Hes Hms. split; [lia | ].
      replace (er - 52 - (er + es)) with (- 52 - es) by lia.
      assert (0 < 2 ^ (- 52 - es)) by (apply Z.pow_pos_nonneg; lia).
      nia. }
    replace (er + 1074) with (52 + (er - 52 + 1074)) by lia.
    rewrite (Z.pow_add_r 2 52 (er - 52 + 1074)) by lia.
    assert (0 < 2 ^ (er - 52 + 1074)) by (apply Z.pow_pos_nonneg; lia).
    change (2 ^ 52) with 4503599627370496. nia.
  - (* [mr * 2^(er-52)] is below the least normal double *)
    set (k := -1022 - er).
    assert (Hk : 1 <= k <= 52) by (unfold k; lia).
    set (T := 2 ^ k).
    assert (HT : 2 <= T).
    { unfold T. change 2 with (2 ^ 1) at 1. apply Z.pow_le_mono_r; lia. }
    set (q := (Zpos mr + T - 1) / T).
    pose proof (Z.div_mod (Zpos mr + T - 1) T ltac:(lia)) as Hdm.
    pose proof (Z.mod_pos_bound (Zpos mr + T - 1) T ltac:(lia)) as Hmod.
    fold q in Hdm.
    assert (Hq1 : Zpos mr <= q * T) by lia.
    assert (Hq2 : q * T <= Zpos mr + T - 1) by lia.
    assert (Hq0 : 0 < q) by nia.
    assert (Hqm : q <= Zpos mr) by nia.
    assert (Hqid : Zpos (Z.to_pos q) = q) by (apply Z2Pos.id; exact Hq0).
    assert (Hm53 : Zpos mr < 2 ^ 53).
    { assert (2 ^ Zpos (digits2_pos mr) <= 2 ^ 53)
        by (apply Z.pow_le_mono_r; lia).
      lia. }
    assert (Hdq : Zpos (digits2_pos (Z.to_pos q)) <= 53).
    { apply digits2_pos_le; [lia | ]. rewrite Hqid. lia. }
    exists (Z.to_pos q), (-1074).
    split.
    { unfold bounded, canonical_mantissa. apply andb_true_intro. split.
      - apply Z.eqb_eq. rewrite fexp_eq. lia.
      - reflexivity. }
    split; [lia | ]. rewrite Hqid. split.
    { intros ms es Hes Hms. split; [lia | ].
      replace (-1074 - (er + es)) with (k + (- 52 - es)) by (unfold k; lia).
      rewrite Z.pow_add_r by lia. fold T.
      assert (0 < 2 ^ (- 52 - es)) by (apply Z.pow_pos_nonneg; lia).
      nia. }
    replace (-1074 + 1074) with 0 by lia. rewrite Z.pow_0_r, Z.mul_1_r.
    replace (er + 1074) with (52 - k) by (unfold k; lia).
    assert (Hsplit : 2 ^ 52 = 2 ^ (52 - k) * T).
    { unfold T. rewrite <- Z.pow_add_r by lia. f_equal. lia. }
    assert (0 < 2 ^ (52 - k)) by (apply Z.pow_pos_nonneg; lia).
    rewrite Hsplit. nia.
Qed.

Lemma below_ulps (mb : positive) (eb : Z) (x : double) :
  below mb eb (to_spec x) -> on_grid (to_spec x) ->
  Z.abs (ulps x) <= Zpos mb * 2 ^ (eb + 1074).
Proof.
  destruct x as [s | s | s | s m e]; cbn [to_spec below on_grid ulps];
    try tauto.
  - intros _ _. cbn [Z.abs]. apply Z.mul_nonneg_nonneg; [lia | ].
    apply Z.pow_nonneg. lia.
  - intros [He Hm] Hg.
    assert (Hp : 0 < 2 ^ (e + 1074)) by (apply Z.pow_pos_nonneg; lia).
    assert (Hs : 2 ^ (eb + 1074) = 2 ^ (eb - e) * 2 ^ (e + 1074)).
    { rewrite <- Z.pow_add_r by lia. f_equal. lia. }
    rewrite Hs. destruct s; cbn zeta; nia.
Qed.

(** What a finite double gives when it is multiplied by a double of
    magnitude at most [DBL_EPSILON] and then by one of magnitude at most
    1. *)
Lemma mul_mul_negligible (r s c : double) :
  valid r = true -> is_finite r = true ->
  valid s = true -> fabs_le s DBL_EPSILON = true ->
  valid c = true -> fabs_le_one c = true ->
  negligible (r * s * c)%double r.
Proof.
  intros Hvr Hfr Hvs Hs Hvc Hc.
  apply valid_unit_bounded in Hc; [ | exact Hvc].
  assert (Hs' : pow2_bounded 52 (to_spec s)).
  { apply valid_pow2_bounded; [exact Hvs | exact Hs]. }
  destruct r as [sr | sr | sr | sr mr er]; try discriminate Hfr.
  - (* a zero *)
    assert (Hz : is_zero (B754_zero sr * s * c)%double = true).
    { destruct s; cbn [to_spec pow2_bounded] in Hs'; try tauto;
        destruct c; cbn [to_spec pow2_bounded] in Hc; try tauto;
        reflexivity. }
    destruct (B754_zero sr * s * c)%double; try discriminate Hz.
    split; [reflexivity | ]. cbn [ulps Z.abs].
    change (2 ^ 52) with 4503599627370496. lia.
  - destruct (negligible_bound mr er Hvr)
      as (mb & eb & Hbd & Heb & Hprod & Hfin).
    assert (H1 : below mb eb (to_spec (B754_finite sr mr er * s)%double)).
    { rewrite to_spec_mul.
      destruct s as [ss | ss | ss | ss ms es];
        cbn [to_spec pow2_bounded] in Hs'; try tauto; try exact I.
      destruct Hs' as [Hes Hms]. cbn [to_spec].
      destruct (Hprod ms es Hes Hms) as [He Hm].
      apply (SFmul_below_finite mb eb Hbd); assumption. }
    assert (H2 : below mb eb
                   (to_spec (B754_finite sr mr er * s * c)%double)).
    { rewrite to_spec_mul. apply (SFmul_below mb eb Hbd); assumption. }
    assert (Hf : is_finite (B754_finite sr mr er * s * c)%double = true)
      by (eapply below_finite, H2).
    split; [exact Hf | ].
    pose proof (below_ulps mb eb _ H2 (mul_on_grid mul_nan _ _ Hf)) as Hu.
    assert (Hr : Z.abs (ulps (B754_finite sr mr er))
                 = Zpos mr * 2 ^ (er + 1074)).
    { cbn [ulps].
      assert (0 <= 2 ^ (er + 1074)) by (apply Z.pow_nonneg; lia).
      destruct sr; cbn zeta; nia. }
    rewrite Hr. change (2 ^ 52) with 4503599627370496 in *. lia.
Qed.

End Negligible.
(** ** The sum of the squares, over the reals *)

(** The slots are taken as real numbers: [p], [x], [y] and [z] are
    [r * s1], [p * c2], [p * s2] and [r * c1], each within [2^-50] of the
    exact product, relatively, or within 2. *)
Section Real.

Import Reals Lra.
Local Open Scope R_scope.

Variables r s1 c1 s2 c2 p x y z : R.
Local Abbreviation u := (/ 2 ^ 50).
Local Abbreviation d := (/ 2 ^ 32).

Hypothesis Hr : 2 ^ 52 <= r.
Hypothesis Hs1 : Rabs s1 <= 1.
Hypothesis Hc1 : Rabs c1 <= 1.
Hypothesis Hs2 : Rabs s2 <= 1.
Hypothesis Hc2 : Rabs c2 <= 1.
Hypothesis H1 : Rabs (s1 * s1 + c1 * c1 - 1) <= d.
Hypothesis H2 : Rabs (s2 * s2 + c2 * c2 - 1) <= d.
Hypothesis Hp : Rabs (p - r * s1) <= 2 + u * Rabs (r * s1).
Hypothesis Hx : Rabs (x - p * c2) <= 2 + u * Rabs (p * c2).
Hypothesis Hy : Rabs (y - p * s2) <= 2 + u * Rabs (p * s2).
Hypothesis Hz : Rabs (z - r * c1) <= 2 + u * Rabs (r * c1).

Lemma u_val : u = / 1125899906842624.
Proof. f_equal. lra. Qed.

Lemma d_val : d = / 4294967296.
Proof. f_equal. lra. Qed.

Lemma r_pos : 4503599627370496 <= r.
Proof. replace 4503599627370496 with (2 ^ 52) by lra. exact Hr. Qed.

Lemma abs_mul_le (a b : R) : Rabs b <= 1 -> Rabs (a * b) <= Rabs a.
Proof.
  intros Hb. rewrite Rabs_mult.
  pose proof (Rabs_pos a). nra.
Qed.

Lemma step_direct (q a b : R) :
  Rabs b <= 1 -> Rabs a <= 2 * r ->
  Rabs (q - a * b) <= 2 + u * Rabs (a * b) ->
  Rabs (q - a * b) <= 3 * u * r.
Proof.
  intros Hb Ha Hq. pose proof r_pos. pose proof (abs_mul_le a b Hb).
  rewrite u_val in *.
  lra.
Qed.


Lemma abs_split (a b : R) : Rabs a <= b -> - b <= a <= b.
Proof. unfold Rabs. destruct (Rcase_abs a); lra. Qed.

Lemma abs_join (a b : R) : - b <= a <= b -> Rabs a <= b.
Proof. unfold Rabs. destruct (Rcase_abs a); lra. Qed.

(** The square of a perturbed value. *)
Lemma square_error (v a k : R) :
  0 <= k -> k <= 1 -> Rabs a <= r -> Rabs (v - a) <= k * r ->
  Rabs (v * v - a * a) <= 3 * k * (r * r).
Proof.
  intros Hk0 Hk1 Ha Hv. pose proof r_pos as Hr0.
  apply abs_split in Ha. apply abs_split in Hv. apply abs_join.
  replace (v * v - a * a) with ((v - a) * (v - a) + 2 * (a * (v - a))) by ring.
  set (w := v - a) in *. set (b := k * r) in *.
  assert (Hb0 : 0 <= b) by (unfold b; nra).
  assert (Hbr : b <= r) by (unfold b; nra).
  assert (H0 : 0 <= w * w) by nra.
  assert (H0' : w * w <= b * b) by nra.
  assert (H1' : - (r * b) <= a * w) by nra.
  assert (H1'' : a * w <= r * b) by nra.
  assert (H2' : b * b <= r * b) by nra.
  replace (3 * k * (r * r)) with (3 * (r * b)) by (unfold b; ring).
  lra.
Qed.

Theorem squares_agree_real :
  1000000000 * Rabs (x * x + y * y + z * z - r * r) < r * r.
Proof.
  pose proof r_pos as Hr0.
  assert (Hrr : Rabs r <= 2 * r) by (apply abs_join; lra).
  pose proof (step_direct p r s1 Hs1 Hrr Hp) as Ap.
  assert (Hpp : Rabs p <= 2 * r).
  { pose proof (abs_mul_le r s1 Hs1) as Hm.
    assert (Hra : Rabs r = r) by (apply Rabs_pos_eq; lra).
    rewrite Hra in Hm.
    pose proof (abs_split _ _ Ap) as Ap'. apply abs_split in Hm.
    apply abs_join. rewrite u_val in Ap'. lra. }
  pose proof (step_direct x p c2 Hc2 Hpp Hx) as Ax.
  pose proof (step_direct y p s2 Hs2 Hpp Hy) as Ay.
  pose proof (step_direct z r c1 Hc1 Hrr Hz) as Az.
  assert (Bx : Rabs (x - r * s1 * c2) <= 6 * u * r).
  { replace (x - r * s1 * c2) with ((x - p * c2) + (p - r * s1) * c2) by ring.
    pose proof (abs_mul_le (p - r * s1) c2 Hc2) as Hm.
    pose proof (abs_split _ _ Ax) as Ax'. pose proof (abs_split _ _ Ap) as Ap'.
    apply abs_split in Hm. apply abs_join. lra. }
  assert (By : Rabs (y - r * s1 * s2) <= 6 * u * r).
  { replace (y - r * s1 * s2) with ((y - p * s2) + (p - r * s1) * s2) by ring.
    pose proof (abs_mul_le (p - r * s1) s2 Hs2) as Hm.
    pose proof (abs_split _ _ Ay) as Ay'. pose proof (abs_split _ _ Ap) as Ap'.
    apply abs_split in Hm. apply abs_join. lra. }
  assert (Ca : Rabs (r * s1 * c2) <= r).
  { pose proof (abs_mul_le (r * s1) c2 Hc2). pose proof (abs_mul_le r s1 Hs1).
    assert (Rabs r = r) by (apply Rabs_pos_eq; lra). lra. }
  assert (Cb : Rabs (r * s1 * s2) <= r).
  { pose proof (abs_mul_le (r * s1) s2 Hs2). pose proof (abs_mul_le r s1 Hs1).
    assert (Rabs r = r) by (apply Rabs_pos_eq; lra). lra. }
  assert (Cc : Rabs (r * c1) <= r).
  { pose proof (abs_mul_le r c1 Hc1).
    assert (Rabs r = r) by (apply Rabs_pos_eq; lra). lra. }
  assert (Hu0 : 0 <= 6 * u) by (rewrite u_val; lra).
  assert (Hu1 : 6 * u <= 1) by (rewrite u_val; lra).
  assert (Hu2 : 0 <= 3 * u) by (rewrite u_val; lra).
  assert (Hu3 : 3 * u <= 1) by (rewrite u_val; lra).
  assert (Bx' : Rabs (x - r * s1 * c2) <= (6 * u) * r) by lra.
  assert (By' : Rabs (y - r * s1 * s2) <= (6 * u) * r) by lra.
  assert (Az' : Rabs (z - r * c1) <= (3 * u) * r) by lra.
  pose proof (square_error x (r * s1 * c2) (6 * u) Hu0 Hu1 Ca Bx') as Sx.
  pose proof (square_error y (r * s1 * s2) (6 * u) Hu0 Hu1 Cb By') as Sy.
  pose proof (square_error z (r * c1) (3 * u) Hu2 Hu3 Cc Az') as Sz.
  assert (Ex : Rabs ((r * s1 * c2) * (r * s1 * c2)
                     + (r * s1 * s2) * (r * s1 * s2)
                     + (r * c1) * (r * c1) - r * r)
               <= 2 * d * (r * r)).
  { replace ((r * s1 * c2) * (r * s1 * c2) + (r * s1 * s2) * (r * s1 * s2)
             + (r * c1) * (r * c1) - r * r)
      with ((r * r) * ((s1 * s1) * (s2 * s2 + c2 * c2 - 1)
                       + (s1 * s1 + c1 * c1 - 1))) by ring.
    apply abs_split in H1. apply abs_split in H2. apply abs_split in Hs1.
    apply abs_join.
    assert (Hss : 0 <= s1 * s1 <= 1) by nra.
    assert (Hd0 : 0 <= d) by (rewrite d_val; lra).
    assert (Hq : - d <= (s1 * s1) * (s2 * s2 + c2 * c2 - 1) <= d) by nra.
    assert (Hrr2 : 0 <= r * r) by nra.
    nra. }
  apply abs_split in Sx. apply abs_split in Sy. apply abs_split in Sz.
  apply abs_split in Ex.
  assert (Hrr2 : 0 < r * r) by nra.
  assert (Hfin : Rabs (x * x + y * y + z * z - r * r)
                 <= (45 * u + 2 * d) * (r * r)).
  { apply abs_join. lra. }
  rewrite u_val, d_val in Hfin.
  assert (Hc : 1000000000
               * ((45 * / 1125899906842624 + 2 * / 4294967296) * (r * r))
               < r * r) by nra.
  lra.
Qed.

End Real.

Section Transfer.

Import Reals Lra.

Variables vU vR vS1 vC1 vS2 vC2 vP vX vY vZ : Z.

Hypothesis HU : (0 < vU)%Z.
Hypothesis HR : (4503599627370496 <= vR)%Z.
Hypothesis HS1 : (Z.abs vS1 <= vU)%Z.
Hypothesis HC1 : (Z.abs vC1 <= vU)%Z.
Hypothesis HS2 : (Z.abs vS2 <= vU)%Z.
Hypothesis HC2 : (Z.abs vC2 <= vU)%Z.
Hypothesis H1 :
  (4294967296 * Z.abs (vS1 * vS1 + vC1 * vC1 - vU * vU) <= vU * vU)%Z.
Hypothesis H2 :
  (4294967296 * Z.abs (vS2 * vS2 + vC2 * vC2 - vU * vU) <= vU * vU)%Z.
Hypothesis HP :
  (1125899906842624 * Z.abs (vP * vU - vR * vS1)
   <= 2251799813685248 * vU + Z.abs (vR * vS1))%Z.
Hypothesis HX :
  (1125899906842624 * Z.abs (vX * vU - vP * vC2)
   <= 2251799813685248 * vU + Z.abs (vP * vC2))%Z.
Hypothesis HY :
  (1125899906842624 * Z.abs (vY * vU - vP * vS2)
   <= 2251799813685248 * vU + Z.abs (vP * vS2))%Z.
Hypothesis HZ :
  (1125899906842624 * Z.abs (vZ * vU - vR * vC1)
   <= 2251799813685248 * vU + Z.abs (vR * vC1))%Z.

Local Open Scope R_scope.

Local Abbreviation iu := (/ IZR vU).

Lemma IZR_U_pos : 0 < IZR vU.
Proof. apply IZR_lt. exact HU. Qed.

Lemma iu_pos : 0 < iu.
Proof. apply Rinv_0_lt_compat, IZR_U_pos. Qed.

Lemma iu_U : IZR vU * iu = 1.
Proof. apply Rinv_r. pose proof IZR_U_pos. lra. Qed.

Lemma unit_real (S : Z) : (Z.abs S <= vU)%Z -> Rabs (IZR S * iu) <= 1.
Proof.
  intros H. apply IZR_le in H. rewrite abs_IZR in H.
  rewrite Rabs_mult, (Rabs_pos_eq iu) by (pose proof iu_pos; lra).
  pose proof iu_pos. pose proof iu_U. pose proof (Rabs_pos (IZR S)).
  assert (Rabs (IZR S) * iu <= IZR vU * iu) by nra. lra.
Qed.

Lemma circle_real (S C : Z) :
  (4294967296 * Z.abs (S * S + C * C - vU * vU) <= vU * vU)%Z ->
  Rabs (IZR S * iu * (IZR S * iu) + IZR C * iu * (IZR C * iu) - 1)
  <= / 2 ^ 32.
Proof.
  intros H. apply IZR_le in H.
  rewrite mult_IZR, abs_IZR, minus_IZR, plus_IZR, !mult_IZR in H.
  replace (IZR S * iu * (IZR S * iu) + IZR C * iu * (IZR C * iu) - 1)
    with ((IZR S * IZR S + IZR C * IZR C - IZR vU * IZR vU) * (iu * iu)).
  2:{ pose proof iu_U.
      replace 1 with ((IZR vU * iu) * (IZR vU * iu)) by (rewrite iu_U; ring).
      ring. }
  rewrite Rabs_mult.
  assert (Hii : 0 < iu * iu) by (pose proof iu_pos; nra).
  rewrite (Rabs_pos_eq (iu * iu)) by lra.
  set (a := Rabs (IZR S * IZR S + IZR C * IZR C - IZR vU * IZR vU)) in *.
  assert (Huu : IZR vU * IZR vU * (iu * iu) = 1).
  { replace (IZR vU * IZR vU * (iu * iu)) with ((IZR vU * iu) * (IZR vU * iu))
      by ring. rewrite iu_U. ring. }
  assert (Hm : 4294967296 * a * (iu * iu) <= IZR vU * IZR vU * (iu * iu))
    by nra.
  replace (/ 2 ^ 32) with (/ 4294967296) by (f_equal; lra).
  lra.
Qed.

Lemma product_real (Q A B : Z) :
  (1125899906842624 * Z.abs (Q * vU - A * B)
   <= 2251799813685248 * vU + Z.abs (A * B))%Z ->
  Rabs (IZR Q - IZR A * (IZR B * iu))
  <= 2 + / 2 ^ 50 * Rabs (IZR A * (IZR B * iu)).
Proof.
  intros H. apply IZR_le in H.
  rewrite plus_IZR, !mult_IZR, !abs_IZR, minus_IZR, !mult_IZR in H.
  pose proof iu_pos as Hi. pose proof iu_U as HiU.
  replace (IZR Q - IZR A * (IZR B * iu))
    with ((IZR Q * IZR vU - IZR A * IZR B) * iu).
  2:{ replace (IZR Q) with (IZR Q * (IZR vU * iu)) at 2 by (rewrite HiU; ring).
      ring. }
  replace (IZR A * (IZR B * iu)) with (IZR A * IZR B * iu) by ring.
  rewrite !Rabs_mult, (Rabs_pos_eq iu) by lra.
  rewrite <- Rabs_mult.
  set (a := Rabs (IZR Q * IZR vU - IZR A * IZR B)) in *.
  set (b := Rabs (IZR A * IZR B)) in *.
  replace (/ 2 ^ 50) with (/ 1125899906842624) by (f_equal; lra).
  assert (Hm : 1125899906842624 * a * iu
               <= (2251799813685248 * IZR vU + b) * iu) by nra.
  replace ((2251799813685248 * IZR vU + b) * iu)
    with (2251799813685248 * (IZR vU * iu) + b * iu) in Hm by ring.
  rewrite HiU in Hm. lra.
Qed.

Theorem squares_agree_Z :
  (1000000000 * Z.abs (vX * vX + vY * vY + vZ * vZ - vR * vR) < vR * vR)%Z.
Proof.
  apply lt_IZR.
  rewrite mult_IZR, abs_IZR, minus_IZR, !plus_IZR, !mult_IZR.
  apply (squares_agree_real (IZR vR) (IZR vS1 * iu) (IZR vC1 * iu)
           (IZR vS2 * iu) (IZR vC2 * iu) (IZR vP) (IZR vX) (IZR vY) (IZR vZ)).
  - replace (2 ^ 52) with 4503599627370496 by lra. apply IZR_le. exact HR.
  - apply unit_real, HS1.
  - apply unit_real, HC1.
  - apply unit_real, HS2.
  - apply unit_real, HC2.
  - apply circle_real, H1.
  - apply circle_real, H2.
  - apply product_real, HP.
  - apply product_real, HX.
  - apply product_real, HY.
  - apply product_real, HZ.
Qed.

End Transfer.
(** ** Cells *)

Section Cells.

Lemma dat_in_range (p : sbh_vec4) (i : Z) :
  0 <= i <= 3 -> exists x, dat p i = Some x.
Proof.
  intros Hi.
  assert (Hc : i = 0 \/ i = 1 \/ i = 2 \/ i = 3) by lia.
  destruct Hc as [-> | [-> | [-> | ->]]]; eexists; reflexivity.
Qed.

Lemma dat_set_in_range (p : sbh_vec4) (i : Z) (x : double) :
  0 <= i <= 3 -> exists p', dat_set p i x = Some p'.
Proof.
  intros Hi.
  assert (Hc : i = 0 \/ i = 1 \/ i = 2 \/ i = 3) by lia.
  destruct Hc as [-> | [-> | [-> | ->]]]; eexists; reflexivity.
Qed.

Lemma dat_set_same (p p' : sbh_vec4) (i : Z) (x : double) :
  dat_set p i x = Some p' -> dat p' i = Some x.
Proof.
  destruct i as [ | [ [ | | ] | [ | | ] | ] | ]; cbn; intros H;
    try discriminate; injection H as <-; reflexivity.
Qed.

Lemma dat_set_other (p p' : sbh_vec4) (i j : Z) (x : double) :
  dat_set p i x = Some p' -> i <> j -> dat p' j = dat p j.
Proof.
  destruct i as [ | [ [ | | ] | [ | | ] | ] | ]; cbn; intros H Hij;
    try discriminate; injection H as <-;
    destruct j as [ | [ [ | | ] | [ | | ] | ] | ]; cbn;
    try reflexivity; now elim Hij.
Qed.

End Cells.

(** ** Steps of a body *)

Section Steps.

Lemma bind_step {A B : Type} (c : M A) (k : A -> M B) (m m' : mem) (a : A) :
  c m = Some (a, m') -> bind c k m = k a m'.
Proof. unfold bind. intros ->. reflexivity. Qed.

Lemma load_step (m : mem) (i : Z) (x : double) :
  dat (obj m) i = Some x ->
  load i m = Some (x, mk_mem (obj m) (trace m ++ [Rd i])).
Proof. unfold load. intros ->. reflexivity. Qed.

(** After the first write of a trace that has [reads_before_writes], only
    writes follow. *)
Lemma reads_before_writes_split (l : list event) :
  reads_before_writes l = true ->
  exists rs ws,
    l = rs ++ ws
    /\ Forall (fun e => exists i, e = Rd i) rs
    /\ Forall (fun e => exists i, e = Wr i) ws.
Proof.
  induction l as [ | [i | i] l IH]; cbn [reads_before_writes]; intros H.
  - exists [], []. repeat split; constructor.
  - destruct (IH H) as (rs & ws & -> & Hr & Hw).
    exists (Rd i :: rs), ws. repeat split; try assumption.
    constructor; [now exists i | assumption].
  - exists [], (Wr i :: l). repeat split; try constructor.
    + now exists i.
    + rewrite forallb_forall in H. apply Forall_forall.
      intros [j | j] Hj; [ | now exists j].
      specialize (H _ Hj). discriminate.
Qed.

End Steps.

(** ** What each function computes *)

Section Functions.

Variable mul_nan : double -> double -> bool.
Variables sin cos : double -> double.
Variable indeterminate : sbh_vec4.

Local Notation "a * b" := (mul mul_nan a b) : double_scope.
Local Abbreviation rect := (sbh_vec4_rect indeterminate).
Local Abbreviation from_schwarzschild :=
  (sbh_vec4_rect_from_schwarzschild mul_nan sin cos indeterminate).
Local Abbreviation to_rect :=
  (sbh_vec4_schwarzschild_to_rect mul_nan sin cos indeterminate).
Local Abbreviation convert :=
  (sbh_vec4_convert_schwarzschild_to_rect mul_nan sin cos).

Lemma sbh_vec4_rect_value (x y z t : double) :
  rect x y z t = Some (mk_sbh_vec4 x y z t).
Proof. reflexivity. Qed.

Lemma from_schwarzschild_value (r phi theta t : double) :
  from_schwarzschild r phi theta t
  = Some (mk_sbh_vec4 (r * sin theta * cos phi) (r * sin theta * sin phi)
            (r * cos theta) t).
Proof. reflexivity. Qed.

Lemma to_rect_run (v : sbh_vec4) :
  run to_rect v
  = Some (mk_sbh_vec4 (cell0 v * sin (cell2 v) * cos (cell1 v))
            (cell0 v * sin (cell2 v) * sin (cell1 v))
            (cell0 v * cos (cell2 v)) (cell3 v),
          mk_mem v [Rd 0; Rd 1; Rd 2; Rd 3]).
Proof.
  unfold run, sbh_vec4_schwarzschild_to_rect.
  rewrite (bind_step _ _ _ _ _ (load_step _ 0 _ eq_refl)).
  rewrite (bind_step _ _ _ _ _ (load_step _ 1 _ eq_refl)).
  rewrite (bind_step _ _ _ _ _ (load_step _ 2 _ eq_refl)).
  rewrite (bind_step _ _ _ _ _ (load_step _ 3 _ eq_refl)).
  rewrite from_schwarzschild_value. reflexivity.
Qed.

Lemma convert_run (v : sbh_vec4) :
  run convert v
  = Some (tt,
          mk_mem
            (mk_sbh_vec4 (cell0 v * sin (cell2 v) * cos (cell1 v))
               (cell0 v * sin (cell2 v) * sin (cell1 v))
               (cell0 v * cos (cell2 v)) (cell3 v))
            [Rd 0; Rd 1; Rd 1; Rd 2; Rd 2; Wr 0; Wr 1; Wr 2]).
Proof. reflexivity. Qed.

(** The three comparisons that [spatial_part_is] stands for. *)
Lemma spatial_part_is_products (r phi theta t x y z : double) :
  spatial_part_is mul_nan sin cos indeterminate r phi theta t x y z ->
  eqb (r * sin theta * cos phi) x = true
  /\ eqb (r * sin theta * sin phi) y = true
  /\ eqb (r * cos theta) z = true.
Proof.
  intros (p & Hp & Hx & Hy & Hz).
  rewrite from_schwarzschild_value in Hp.
  injection Hp as Hp. subst p. cbn [cell0 cell1 cell2] in Hx, Hy, Hz.
  repeat split; assumption.
Qed.

(** On a platform whose sine of [M_PI] is the double nearest to the sine of
    the real number [M_PI], slot 0 at r = 1, phi = 0, theta = [M_PI] is that
    sine, not 0. *)
Lemma pole_case_not_at_M_PI (t : double) :
  sin RefMath.M_PI = B754_finite false 4967757600021511 (-105) ->
  cos zero = one ->
  ~ pole_case_as_specified mul_nan sin cos indeterminate one zero t.
Proof.
  unfold pole_case_as_specified. intros Hs Hc [_ Hsouth].
  apply spatial_part_is_products in Hsouth. destruct Hsouth as [Hx _].
  rewrite Hs, Hc in Hx. vm_compute in Hx. discriminate Hx.
Qed.

(** On a platform whose cosine of an infinity is a NaN, slot 0 at r = 0,
    phi = +infinity is a NaN, not 0. *)
Lemma origin_case_not_at_infinity (theta t : double) :
  is_nan (cos infinity) = true ->
  ~ origin_case_as_specified mul_nan sin cos indeterminate infinity theta t.
Proof.
  unfold origin_case_as_specified. intros Hc Horigin.
  apply spatial_part_is_products in Horigin. destruct Horigin as [Hx _].
  rewrite eqb_nan_l in Hx; [discriminate Hx | ].
  apply mul_nan_r, Hc.
Qed.

(** No double is its own negation: the sign bits differ. *)
Lemma neg_neq (a : double) : a <> (- a)%double.
Proof. destruct a as [s | s | s | s m e]; destruct s; discriminate. Qed.

(** On a platform where the NaN that an infinity times a zero gives has the
    same sign bit for both infinities, slot 0 at theta with a zero sine is
    the same NaN for r = +infinity and for r = -infinity, sign bit
    included: it is not negated. *)
Lemma odd_in_r_not_at_infinity (phi theta t : double) :
  is_zero (sin theta) = true ->
  mul_nan infinity (sin theta) = mul_nan (- infinity)%double (sin theta) ->
  ~ odd_in_r_as_specified mul_nan sin cos indeterminate infinity phi theta t.
Proof.
  intros Hz Hs (p & q & Hp & Hq & H0 & _).
  rewrite from_schwarzschild_value in Hp, Hq.
  injection Hp as Hp. injection Hq as Hq. subst p q.
  cbn [cell0] in H0.
  change (- infinity)%double with (B754_infinity true) in Hs.
  assert (He : (B754_infinity true * sin theta)%double
               = (infinity * sin theta)%double).
  { revert Hz Hs. destruct (sin theta) as [s0 | s0 | s0 | s0 m0 e0];
      cbn [is_zero]; intros Hz Hs; try discriminate Hz.
    unfold mul. rewrite Hs. reflexivity. }
  rewrite He in H0. exact (neg_neq _ H0).
Qed.

End Functions.

(** ** The claims of the specification *)

Section Claims.

Variable mul_nan : double -> double -> bool.
Variables sin cos : double -> double.
Variable indeterminate : sbh_vec4.

Local Notation "a * b" := (mul mul_nan a b) : double_scope.
Local Abbreviation rect := (sbh_vec4_rect indeterminate).
Local Abbreviation from_schwarzschild :=
  (sbh_vec4_rect_from_schwarzschild mul_nan sin cos indeterminate).
Local Abbreviation to_rect :=
  (sbh_vec4_schwarzschild_to_rect mul_nan sin cos indeterminate).
Local Abbreviation convert :=
  (sbh_vec4_convert_schwarzschild_to_rect mul_nan sin cos).

(** C1.  Whatever the doubles r, phi, theta and t, and whatever the struct
    held before, [sbh_vec4_rect_from_schwarzschild] returns a vector whose
    slot 0 is [(r * sin theta) * cos phi], slot 1 is
    [(r * sin theta) * sin phi], slot 2 is [r * cos theta] and slot 3 is
    [t]: theta is the angle to the z axis and phi the azimuth, [sin] and
    [cos] are those of the platform and the products are binary64
    products. *)
Theorem from_schwarzschild_slots (r phi theta t : double) :
  exists p,
    from_schwarzschild r phi theta t = Some p
    /\ dat p 0 = Some (r * sin theta * cos phi)%double
    /\ dat p 1 = Some (r * sin theta * sin phi)%double
    /\ dat p 2 = Some (r * cos theta)%double
    /\ dat p 3 = Some t.
Proof.
  eexists. split; [apply from_schwarzschild_value | ].
  repeat split.
Qed.

(** C2.  For every vector v, [sbh_vec4_schwarzschild_to_rect] on v and
    [sbh_vec4_convert_schwarzschild_to_rect] on a copy of v both finish,
    the vector returned by the first and the copy left by the second have
    the same slots 0, 1 and 2, and slot 3 of each is slot 3 of v. *)
Theorem to_rect_agrees_with_convert (v : sbh_vec4) :
  exists w v',
    result to_rect v = Some w
    /\ final convert v = Some v'
    /\ dat w 0 = dat v' 0
    /\ dat w 1 = dat v' 1
    /\ dat w 2 = dat v' 2
    /\ dat w 3 = dat v 3
    /\ dat v' 3 = dat v 3.
Proof.
  unfold result, final.
  rewrite to_rect_run, convert_run. cbn [option_map fst snd obj].
  do 2 eexists. split; [reflexivity | ]. split; [reflexivity | ].
  repeat split.
Qed.

(** C3.  For every vector v, [sbh_vec4_schwarzschild_to_rect] returns what
    [sbh_vec4_rect_from_schwarzschild] returns on the four slots of v taken
    in order, and does nothing else: v itself is left as it was and is only
    read. *)
Theorem to_rect_is_from_schwarzschild (v : sbh_vec4) :
  result to_rect v
  = from_schwarzschild (cell0 v) (cell1 v) (cell2 v) (cell3 v)
  /\ dat v 0 = Some (cell0 v) /\ dat v 1 = Some (cell1 v)
  /\ dat v 2 = Some (cell2 v) /\ dat v 3 = Some (cell3 v)
  /\ final to_rect v = Some v
  /\ accesses to_rect v = Some [Rd 0; Rd 1; Rd 2; Rd 3].
Proof.
  unfold result, final, accesses. rewrite to_rect_run.
  rewrite from_schwarzschild_value. repeat split.
Qed.

(** C4.  For every vector v, [sbh_vec4_convert_schwarzschild_to_rect]
    leaves slot 3 as it was and never writes it; no slot is read after a
    slot has been written; and the new slots 0, 1 and 2 are the products of
    the original slot 0 with the sines and cosines of the original slots 1
    and 2. *)
Theorem convert_reads_then_writes (v : sbh_vec4) :
  exists v' tr,
    run convert v = Some (tt, mk_mem v' tr)
    /\ dat v' 3 = dat v 3
    /\ ~ In (Wr 3) tr
    /\ reads_before_writes tr = true
    /\ (exists rs ws,
          tr = rs ++ ws
          /\ Forall (fun e => exists i, e = Rd i) rs
          /\ Forall (fun e => exists i, e = Wr i) ws)
    /\ dat v' 0 = Some (cell0 v * sin (cell2 v) * cos (cell1 v))%double
    /\ dat v' 1 = Some (cell0 v * sin (cell2 v) * sin (cell1 v))%double
    /\ dat v' 2 = Some (cell0 v * cos (cell2 v))%double.
Proof.
  do 2 eexists. split; [apply convert_run | ].
  assert (Hrw : reads_before_writes
                  [Rd 0; Rd 1; Rd 1; Rd 2; Rd 2; Wr 0; Wr 1; Wr 2] = true)
    by reflexivity.
  split; [reflexivity | ].
  split.
  - cbn [In]. intros H.
    repeat (destruct H as [H | H]; [discriminate H | ]). exact H.
  - split; [exact Hrw | ].
    split; [apply reads_before_writes_split, Hrw | ].
    repeat split.
Qed.

(** C8.  Whatever the four doubles x, y, z and t, finite or not,
    [sbh_vec4_rect] returns the vector whose slots 0, 1, 2 and 3 are x, y, z
    and t themselves; on (1, 2, 3, 4) its slots are the doubles 1, 2, 3
    and 4. *)
Theorem sbh_vec4_rect_verbatim :
  (forall x y z t : double,
     exists p,
       rect x y z t = Some p
       /\ dat p 0 = Some x /\ dat p 1 = Some y
       /\ dat p 2 = Some z /\ dat p 3 = Some t)
  /\ rect (of_Z 1) (of_Z 2) (of_Z 3) (of_Z 4)
     = Some (mk_sbh_vec4
               (B754_finite false 4503599627370496 (-52))
               (B754_finite false 4503599627370496 (-51))
               (B754_finite false 6755399441055744 (-51))
               (B754_finite false 4503599627370496 (-50))).
Proof.
  split.
  - intros x y z t. eexists. split; [apply sbh_vec4_rect_value | ].
    repeat split.
  - rewrite sbh_vec4_rect_value. reflexivity.
Qed.

(** C9.  Each of the four functions finishes on every input, NaN and
    infinities included: the two constructors return a vector for all four
    doubles, [sbh_vec4_schwarzschild_to_rect] returns a vector for every
    vector, and [sbh_vec4_convert_schwarzschild_to_rect] completes its update
    of every vector.  None of them has a failing outcome. *)
Theorem operations_total :
  (forall x y z t : double, exists p, rect x y z t = Some p)
  /\ (forall r phi theta t : double,
        exists p, from_schwarzschild r phi theta t = Some p)
  /\ (forall v : sbh_vec4, exists p, result to_rect v = Some p)
  /\ (forall v : sbh_vec4, exists v', final convert v = Some v').
Proof.
  repeat split.
  - intros x y z t. eexists. apply sbh_vec4_rect_value.
  - intros r phi theta t. eexists. apply from_schwarzschild_value.
  - intros v. unfold result. rewrite to_rect_run. eexists. reflexivity.
  - intros v. unfold final. rewrite convert_run. eexists. reflexivity.
Qed.

(** C10, amended.  For every double r and all phi, theta and t, each of the
    slots 0, 1 and 2 of the vector made from [-r] is the negation of the
    same slot of the vector made from r, unless that slot is a NaN, in which
    case the slot made from [-r] is a NaN as well; both vectors have t in
    slot 3.  Nothing is asked of the sign of r. *)
Theorem from_schwarzschild_odd_in_r (r phi theta t : double) :
  exists p q,
    from_schwarzschild r phi theta t = Some p
    /\ from_schwarzschild (- r) phi theta t = Some q
    /\ negated (cell0 p) (cell0 q)
    /\ negated (cell1 p) (cell1 q)
    /\ negated (cell2 p) (cell2 q)
    /\ cell3 q = cell3 p
    /\ cell3 p = t.
Proof.
  do 2 eexists.
  split; [apply from_schwarzschild_value | ].
  split; [apply from_schwarzschild_value | ].
  cbn [cell0 cell1 cell2 cell3].
  split; [apply mul_negated_l, mul_negated_l, negated_neg | ].
  split; [apply mul_negated_l, mul_negated_l, negated_neg | ].
  split; [apply mul_negated_l, negated_neg | ].
  split; reflexivity.
Qed.

(** C6, amended.  Let r be a finite double.  At a zero theta, where the
    sine is a zero and the cosine is 1, and for phi with a finite sine and
    cosine, slots 0 and 1 compare equal to 0 and slot 2 is r itself.  At
    [M_PI], where the cosine is -1 and the sine is a double of magnitude at
    most [DBL_EPSILON], and for phi with a sine and a cosine of magnitude at
    most 1, slot 2 is [-r] itself, and slots 0 and 1 are finite and of
    magnitude at most [fabs (r) * 2^-52], rounded up to a multiple of
    [2^-1074]. *)
Theorem pole_case (r phi t : double) (s : bool) :
  valid r = true ->
  is_finite r = true ->
  (is_finite (sin phi) = true ->
   is_finite (cos phi) = true ->
   is_zero (sin (B754_zero s)) = true ->
   cos (B754_zero s) = one ->
   exists p,
     from_schwarzschild r phi (B754_zero s) t = Some p
     /\ eqb (cell0 p) zero = true
     /\ eqb (cell1 p) zero = true
     /\ cell2 p = r)
  /\ (valid (sin phi) = true -> fabs_le_one (sin phi) = true ->
      valid (cos phi) = true -> fabs_le_one (cos phi) = true ->
      valid (sin RefMath.M_PI) = true ->
      fabs_le (sin RefMath.M_PI) DBL_EPSILON = true ->
      cos RefMath.M_PI = (- one)%double ->
      exists p,
        from_schwarzschild r phi RefMath.M_PI t = Some p
        /\ negligible (cell0 p) r
        /\ negligible (cell1 p) r
        /\ cell2 p = (- r)%double).
Proof.
  intros Hv Hr.
  assert (Hn : is_nan r = false)
    by (destruct r; try discriminate Hr; reflexivity).
  split.
  - intros Hsin Hcos Hs0 Hc0.
    eexists. split; [apply from_schwarzschild_value | ].
    cbn [cell0 cell1 cell2].
    rewrite !eqb_zero, Hc0.
    assert (Hz : is_zero (r * sin (B754_zero s))%double = true)
      by (apply mul_zero_r; assumption).
    split; [apply mul_zero_l; assumption | ].
    split; [apply mul_zero_l; assumption | ].
    apply mul_one_r; assumption.
  - intros Hvs Hs Hvc Hc Hvpi Hspi Hcpi.
    eexists. split; [apply from_schwarzschild_value | ].
    cbn [cell0 cell1 cell2].
    split; [apply mul_mul_negligible; assumption | ].
    split; [apply mul_mul_negligible; assumption | ].
    rewrite Hcpi. apply mul_minus_one_r; assumption.
Qed.

(** C5.  Let r be a finite double that is at least [DBL_MIN], and phi and
    theta doubles whose sines and cosines are doubles of magnitude at most
    1 with [sin^2 + cos^2] within [2^-32] of 1.  Then slots 0, 1 and 2 are
    finite, and the sum of their squares, taken exactly, is the exact
    square of r with a relative error below [10^-9]. *)
Theorem radius_squared (r phi theta t : double) :
  valid r = true -> is_finite r = true -> leb DBL_MIN r = true ->
  valid (sin phi) = true -> fabs_le_one (sin phi) = true ->
  valid (cos phi) = true -> fabs_le_one (cos phi) = true ->
  valid (sin theta) = true -> fabs_le_one (sin theta) = true ->
  valid (cos theta) = true -> fabs_le_one (cos theta) = true ->
  near_unit_circle (sin phi) (cos phi) ->
  near_unit_circle (sin theta) (cos theta) ->
  exists p,
    from_schwarzschild r phi theta t = Some p
    /\ is_finite (cell0 p) = true
    /\ is_finite (cell1 p) = true
    /\ is_finite (cell2 p) = true
    /\ squares_agree (cell0 p) (cell1 p) (cell2 p) r.
Proof.
  intros Hvr Hfr Hmin Hvsp Hsp Hvcp Hcp Hvst Hst Hvct Hct Hphi Htheta.
  eexists. split; [apply from_schwarzschild_value | ].
  cbn [cell0 cell1 cell2].
  destruct (mul_shrinks mul_nan r (sin theta) Hvr Hfr Hvst Hst) as [Hfp _].
  destruct (mul_shrinks mul_nan r (cos theta) Hvr Hfr Hvct Hct) as [Hfz _].
  destruct (mul_shrinks_twice mul_nan r (sin theta) (cos phi)
              Hvr Hfr Hvst Hst Hvcp Hcp) as [Hfx _].
  destruct (mul_shrinks_twice mul_nan r (sin theta) (sin phi)
              Hvr Hfr Hvst Hst Hvsp Hsp) as [Hfy _].
  split; [exact Hfx | ]. split; [exact Hfy | ]. split; [exact Hfz | ].
  unfold squares_agree.
  pose proof (valid_unit_bounded _ Hvsp Hsp) as Bsp.
  pose proof (valid_unit_bounded _ Hvcp Hcp) as Bcp.
  pose proof (valid_unit_bounded _ Hvst Hst) as Bst.
  pose proof (valid_unit_bounded _ Hvct Hct) as Bct.
  pose proof (valid_on_grid _ Hvr Hfr) as Gr.
  pose proof (valid_on_grid _ Hvsp (pow2_bounded_finite 0 _ Bsp)) as Gsp.
  pose proof (valid_on_grid _ Hvcp (pow2_bounded_finite 0 _ Bcp)) as Gcp.
  pose proof (valid_on_grid _ Hvst (pow2_bounded_finite 0 _ Bst)) as Gst.
  pose proof (valid_on_grid _ Hvct (pow2_bounded_finite 0 _ Bct)) as Gct.
  pose proof (mul_on_grid mul_nan _ _ Hfp) as Gp.
  unfold near_unit_circle in Hphi, Htheta.
  change (2 ^ 32) with 4294967296 in Hphi, Htheta.
  apply (squares_agree_Z ulps_one (ulps r)
           (ulps (sin theta)) (ulps (cos theta))
           (ulps (sin phi)) (ulps (cos phi))
           (ulps (r * sin theta)%double)).
  - apply ulps_one_pos.
  - apply ulps_at_least_DBL_MIN; assumption.
  - apply ulps_unit_bounded; assumption.
  - apply ulps_unit_bounded; assumption.
  - apply ulps_unit_bounded; assumption.
  - apply ulps_unit_bounded; assumption.
  - exact Htheta.
  - exact Hphi.
  - apply mul_error; assumption.
  - apply mul_error; assumption.
  - apply mul_error; assumption.
  - apply mul_error; assumption.
Qed.

(** C7, amended.  Let r be a zero, and phi and theta doubles whose sines and
    cosines are finite, as they are for finite phi and theta.  Then each of
    the slots 0, 1 and 2 compares equal to 0. *)
Theorem origin_case (s : bool) (phi theta t : double) :
  is_finite (sin phi) = true ->
  is_finite (cos phi) = true ->
  is_finite (sin theta) = true ->
  is_finite (cos theta) = true ->
  exists p,
    from_schwarzschild (B754_zero s) phi theta t = Some p
    /\ eqb (cell0 p) zero = true
    /\ eqb (cell1 p) zero = true
    /\ eqb (cell2 p) zero = true.
Proof.
  intros Hsp Hcp Hst Hct.
  eexists. split; [apply from_schwarzschild_value | ].
  cbn [cell0 cell1 cell2]. rewrite !eqb_zero.
  assert (Hz : is_zero (B754_zero s * sin theta)%double = true)
    by (apply mul_zero_l; [reflexivity | assumption]).
  repeat split; apply mul_zero_l; try assumption; reflexivity.
Qed.

End Claims.
(** ** Evaluations with the reference <math.h> *)

(** [M_PI] is the double nearest to pi. *)
Example M_PI_nearest :
  of_scaled RefMath.pi_fixed (- RefMath.scale) = RefMath.M_PI.
Proof. vm_compute. reflexivity. Qed.

(** The sine of [M_PI] is 0x1.1a62633145c07p-53, about 1.2246e-16, and its
    cosine is -1. *)
Example sin_cos_M_PI :
  RefMath.sin RefMath.M_PI = B754_finite false 4967757600021511 (-105)
  /\ RefMath.cos RefMath.M_PI = (- one)%double.
Proof. split; vm_compute; reflexivity. Qed.

(** The vector made from r = 2, phi = 0, theta = 0, t = 5. *)
Example from_schwarzschild_north :
  sbh_vec4_rect_from_schwarzschild SSE2.mul_nan RefMath.sin RefMath.cos junk
    (of_Z 2) zero zero (of_Z 5)
  = Some (mk_sbh_vec4 zero zero (of_Z 2) (of_Z 5)).
Proof. vm_compute. reflexivity. Qed.

(** The scenario r = 2, phi = 0, theta = pi / 2, t = 5 of the specification,
    at the double nearest to pi / 2: slot 0 is 2, slot 1 is 0, slot 2 is
    0x1.1a62633145c07p-53, twice the cosine of that double, and slot 3
    is 5. *)
Example from_schwarzschild_equator :
  sbh_vec4_rect_from_schwarzschild SSE2.mul_nan RefMath.sin RefMath.cos junk
    (of_Z 2) zero (B754_finite false 7074237752028440 (-52)) (of_Z 5)
  = Some (mk_sbh_vec4 (of_Z 2) zero
            (B754_finite false 4967757600021511 (-105)) (of_Z 5)).
Proof. vm_compute. reflexivity. Qed.

(** With r an infinity and theta = 0, slots 0 and 1 are the NaN with the
    sign bit set, for r = +infinity and for r = -infinity alike. *)
Example from_schwarzschild_infinity_north :
  sbh_vec4_rect_from_schwarzschild SSE2.mul_nan RefMath.sin RefMath.cos junk
    infinity one zero (of_Z 5)
  = Some (mk_sbh_vec4 (B754_nan true) (B754_nan true) infinity (of_Z 5))
  /\ sbh_vec4_rect_from_schwarzschild SSE2.mul_nan RefMath.sin RefMath.cos
       junk (- infinity)%double one zero (of_Z 5)
     = Some (mk_sbh_vec4 (B754_nan true) (B754_nan true)
               (- infinity)%double (of_Z 5)).
Proof. split; vm_compute; reflexivity. Qed.

(** Below [DBL_MIN] the squares need not agree: at r = [2^-1074],
    phi = theta = 1, each of the slots 0, 1 and 2 is [2^-1074]. *)
Example squares_disagree_below_DBL_MIN :
  sbh_vec4_rect_from_schwarzschild SSE2.mul_nan RefMath.sin RefMath.cos junk
    (B754_finite false 1 (-1074)) one one (of_Z 5)
  = Some (mk_sbh_vec4 (B754_finite false 1 (-1074))
            (B754_finite false 1 (-1074)) (B754_finite false 1 (-1074))
            (of_Z 5))
  /\ ~ squares_agree (B754_finite false 1 (-1074))
         (B754_finite false 1 (-1074)) (B754_finite false 1 (-1074))
         (B754_finite false 1 (-1074)).
Proof.
  split; [vm_compute; reflexivity | ].
  unfold squares_agree. vm_compute. discriminate.
Qed.

(** A use of [pole_case]: r = 2, phi = 1, t = 5. *)
Lemma pole_case_witness :
  (valid (of_Z 2) = true
   /\ is_finite (of_Z 2) = true
   /\ is_finite (RefMath.sin one) = true
   /\ is_finite (RefMath.cos one) = true
   /\ is_zero (RefMath.sin (B754_zero false)) = true
   /\ RefMath.cos (B754_zero false) = one
   /\ valid (RefMath.sin one) = true
   /\ fabs_le_one (RefMath.sin one) = true
   /\ valid (RefMath.cos one) = true
   /\ fabs_le_one (RefMath.cos one) = true
   /\ valid (RefMath.sin RefMath.M_PI) = true
   /\ fabs_le (RefMath.sin RefMath.M_PI) DBL_EPSILON = true
   /\ RefMath.cos RefMath.M_PI = (- one)%double)
  /\ (exists p,
        sbh_vec4_rect_from_schwarzschild SSE2.mul_nan RefMath.sin RefMath.cos
          junk (of_Z 2) one (B754_zero false) (of_Z 5) = Some p
        /\ eqb (cell0 p) zero = true
        /\ eqb (cell1 p) zero = true
        /\ cell2 p = of_Z 2)
  /\ (exists p,
        sbh_vec4_rect_from_schwarzschild SSE2.mul_nan RefMath.sin RefMath.cos
          junk (of_Z 2) one RefMath.M_PI (of_Z 5) = Some p
        /\ negligible (cell0 p) (of_Z 2)
        /\ negligible (cell1 p) (of_Z 2)
        /\ cell2 p = (- of_Z 2)%double).
Proof.
  split.
  - repeat match goal with |- _ /\ _ => split end; vm_compute; reflexivity.
  - destruct (pole_case SSE2.mul_nan RefMath.sin RefMath.cos junk (of_Z 2)
                one (of_Z 5) false) as [Hnorth Hsouth];
      [vm_compute; reflexivity | vm_compute; reflexivity | ].
    split; [apply Hnorth | apply Hsouth]; vm_compute; reflexivity.
Defined.

(** At r = 1, phi = 0, theta = [M_PI] slot 0 is the sine of [M_PI], which is
    not 0: the vector is not (0, 0, -1). *)
Lemma pole_case_counterexample :
  ~ pole_case_as_specified SSE2.mul_nan RefMath.sin RefMath.cos junk one zero
      zero.
Proof.
  apply pole_case_not_at_M_PI; vm_compute; reflexivity.
Qed.

(** A use of [origin_case]: r = -0, phi = 1, theta = [M_PI], t = 5. *)
Lemma origin_case_witness :
  (is_finite (RefMath.sin one) = true
   /\ is_finite (RefMath.cos one) = true
   /\ is_finite (RefMath.sin RefMath.M_PI) = true
   /\ is_finite (RefMath.cos RefMath.M_PI) = true)
  /\ exists p,
       sbh_vec4_rect_from_schwarzschild SSE2.mul_nan RefMath.sin RefMath.cos
           junk
         (B754_zero true) one RefMath.M_PI (of_Z 5) = Some p
       /\ eqb (cell0 p) zero = true
       /\ eqb (cell1 p) zero = true
       /\ eqb (cell2 p) zero = true.
Proof.
  split.
  - repeat match goal with |- _ /\ _ => split end; vm_compute; reflexivity.
  - apply (origin_case SSE2.mul_nan RefMath.sin RefMath.cos junk true one
      RefMath.M_PI
             (of_Z 5));
      vm_compute; reflexivity.
Defined.

(** At r = 0 and phi = +infinity the cosine of phi is a NaN, and so are
    slots 0 and 1: the vector is not (0, 0, 0). *)
Lemma origin_case_counterexample :
  ~ origin_case_as_specified SSE2.mul_nan RefMath.sin RefMath.cos junk
      infinity one zero.
Proof.
  apply origin_case_not_at_infinity. reflexivity.
Qed.

(** At r = +infinity and theta = 0 slot 0 is the NaN with the sign bit set,
    and so it is at r = -infinity: the slot is not negated along with r. *)
Lemma from_schwarzschild_odd_in_r_counterexample :
  ~ odd_in_r_as_specified SSE2.mul_nan RefMath.sin RefMath.cos junk
      infinity one zero (of_Z 5).
Proof.
  apply odd_in_r_not_at_infinity; vm_compute; reflexivity.
Qed.

(** A use of [radius_squared]: r = 2, phi = 1, theta = [M_PI]. *)
Lemma radius_squared_witness :
  (valid (of_Z 2) = true
   /\ is_finite (of_Z 2) = true
   /\ leb DBL_MIN (of_Z 2) = true
   /\ valid (RefMath.sin one) = true
   /\ fabs_le_one (RefMath.sin one) = true
   /\ valid (RefMath.cos one) = true
   /\ fabs_le_one (RefMath.cos one) = true
   /\ valid (RefMath.sin RefMath.M_PI) = true
   /\ fabs_le_one (RefMath.sin RefMath.M_PI) = true
   /\ valid (RefMath.cos RefMath.M_PI) = true
   /\ fabs_le_one (RefMath.cos RefMath.M_PI) = true
   /\ near_unit_circle (RefMath.sin one) (RefMath.cos one)
   /\ near_unit_circle (RefMath.sin RefMath.M_PI) (RefMath.cos RefMath.M_PI))
  /\ exists p,
       sbh_vec4_rect_from_schwarzschild SSE2.mul_nan RefMath.sin RefMath.cos
         junk (of_Z 2) one RefMath.M_PI (of_Z 5) = Some p
       /\ is_finite (cell0 p) = true
       /\ is_finite (cell1 p) = true
       /\ is_finite (cell2 p) = true
       /\ squares_agree (cell0 p) (cell1 p) (cell2 p) (of_Z 2).
Proof.
  split.
  - repeat match goal with |- _ /\ _ => split end;
      try (vm_compute; reflexivity);
      apply Z.leb_le; vm_compute; reflexivity.
  - apply (radius_squared SSE2.mul_nan RefMath.sin RefMath.cos junk (of_Z 2)
             one RefMath.M_PI (of_Z 5));
      try (vm_compute; reflexivity);
      apply Z.leb_le; vm_compute; reflexivity.
Defined.

(** ** How the functions compose and what they keep *)

Section Further.

Variable mul_nan : double -> double -> bool.
Variables sin cos : double -> double.
Variable indeterminate : sbh_vec4.

Local Notation "a * b" := (mul mul_nan a b) : double_scope.
Local Abbreviation rect := (sbh_vec4_rect indeterminate).
Local Abbreviation from_schwarzschild :=
  (sbh_vec4_rect_from_schwarzschild mul_nan sin cos indeterminate).
Local Abbreviation to_rect :=
  (sbh_vec4_schwarzschild_to_rect mul_nan sin cos indeterminate).
Local Abbreviation convert :=
  (sbh_vec4_convert_schwarzschild_to_rect mul_nan sin cos).

(** X1.  Storing (r, phi, theta, t) with [sbh_vec4_rect] and converting the
    vector, in place or into a new vector, gives the vector that
    [sbh_vec4_rect_from_schwarzschild] makes from (r, phi, theta, t). *)
Theorem rect_then_convert (r phi theta t : double) :
  exists v,
    rect r phi theta t = Some v
    /\ final convert v = from_schwarzschild r phi theta t
    /\ result to_rect v = from_schwarzschild r phi theta t.
Proof.
  eexists. split; [apply sbh_vec4_rect_value | ].
  unfold final, result.
  rewrite convert_run, to_rect_run, from_schwarzschild_value.
  split; reflexivity.
Qed.

(** X2.  A radius that is an infinity or a NaN never gives a finite slot 0,
    1 or 2, whatever the sines and cosines are; slot 3 is t all the
    same. *)
Theorem non_finite_radius (r phi theta t : double) :
  is_finite r = false ->
  exists p,
    from_schwarzschild r phi theta t = Some p
    /\ is_finite (cell0 p) = false
    /\ is_finite (cell1 p) = false
    /\ is_finite (cell2 p) = false
    /\ cell3 p = t.
Proof.
  intros Hr. eexists. split; [apply from_schwarzschild_value | ].
  cbn [cell0 cell1 cell2 cell3].
  split; [now apply mul_not_finite_l, mul_not_finite_l | ].
  split; [now apply mul_not_finite_l, mul_not_finite_l | ].
  split; [now apply mul_not_finite_l | reflexivity].
Qed.

(** X3.  With a radius that is an infinity or a NaN, at an angle theta
    whose sine is a zero, slots 0 and 1 are NaN. *)
Theorem non_finite_radius_at_pole (r phi theta t : double) :
  is_finite r = false ->
  is_zero (sin theta) = true ->
  exists p,
    from_schwarzschild r phi theta t = Some p
    /\ is_nan (cell0 p) = true
    /\ is_nan (cell1 p) = true.
Proof.
  intros Hr Hs. eexists. split; [apply from_schwarzschild_value | ].
  cbn [cell0 cell1].
  split; apply mul_nan_l, mul_infinity_zero; assumption.
Qed.

(** X4.  For a finite radius r, and angles whose sines and cosines are
    doubles of magnitude at most 1, slots 0, 1 and 2 are finite and none
    of them exceeds r in magnitude: no product overflows. *)
Theorem finite_radius_bounds (r phi theta t : double) :
  valid r = true -> is_finite r = true ->
  valid (sin phi) = true -> fabs_le_one (sin phi) = true ->
  valid (cos phi) = true -> fabs_le_one (cos phi) = true ->
  valid (sin theta) = true -> fabs_le_one (sin theta) = true ->
  valid (cos theta) = true -> fabs_le_one (cos theta) = true ->
  exists p,
    from_schwarzschild r phi theta t = Some p
    /\ (is_finite (cell0 p) = true /\ fabs_le (cell0 p) r = true)
    /\ (is_finite (cell1 p) = true /\ fabs_le (cell1 p) r = true)
    /\ (is_finite (cell2 p) = true /\ fabs_le (cell2 p) r = true).
Proof.
  intros Hvr Hfr Hvsp Hsp Hvcp Hcp Hvst Hst Hvct Hct.
  eexists. split; [apply from_schwarzschild_value | ].
  cbn [cell0 cell1 cell2].
  split; [apply mul_shrinks_twice; assumption | ].
  split; [apply mul_shrinks_twice; assumption | ].
  apply mul_shrinks; assumption.
Qed.

(** X5.  The same for the conversion in place: when slot 0 is finite and
    the sines and cosines of slots 1 and 2 are doubles of magnitude at most
    1, the conversion leaves finite slots 0, 1 and 2, none of them larger
    in magnitude than the former slot 0. *)
Theorem convert_bounds (v : sbh_vec4) :
  valid (cell0 v) = true -> is_finite (cell0 v) = true ->
  valid (sin (cell1 v)) = true -> fabs_le_one (sin (cell1 v)) = true ->
  valid (cos (cell1 v)) = true -> fabs_le_one (cos (cell1 v)) = true ->
  valid (sin (cell2 v)) = true -> fabs_le_one (sin (cell2 v)) = true ->
  valid (cos (cell2 v)) = true -> fabs_le_one (cos (cell2 v)) = true ->
  exists v',
    final convert v = Some v'
    /\ (is_finite (cell0 v') = true /\ fabs_le (cell0 v') (cell0 v) = true)
    /\ (is_finite (cell1 v') = true /\ fabs_le (cell1 v') (cell0 v) = true)
    /\ (is_finite (cell2 v') = true /\ fabs_le (cell2 v') (cell0 v) = true).
Proof.
  intros Hvr Hfr Hvsp Hsp Hvcp Hcp Hvst Hst Hvct Hct.
  unfold final. rewrite convert_run. cbn [option_map snd obj].
  eexists. split; [reflexivity | ].
  cbn [cell0 cell1 cell2].
  split; [apply mul_shrinks_twice; assumption | ].
  split; [apply mul_shrinks_twice; assumption | ].
  apply mul_shrinks; assumption.
Qed.

(** X6.  Where the sine is odd and the cosine even at theta, replacing
    theta by [-theta] keeps slots 2 and 3 and negates slots 0 and 1; where
    one of these is a NaN, it is a NaN for [-theta] as well. *)
Theorem theta_reflection (r phi theta t : double) :
  sin (- theta)%double = (- sin theta)%double ->
  cos (- theta)%double = cos theta ->
  exists p q,
    from_schwarzschild r phi theta t = Some p
    /\ from_schwarzschild r phi (- theta)%double t = Some q
    /\ negated (cell0 p) (cell0 q)
    /\ negated (cell1 p) (cell1 q)
    /\ cell2 q = cell2 p
    /\ cell3 q = cell3 p.
Proof.
  intros Hs Hc. do 2 eexists.
  split; [apply from_schwarzschild_value | ].
  split; [apply from_schwarzschild_value | ].
  cbn [cell0 cell1 cell2 cell3]. rewrite Hs, Hc.
  split; [apply mul_negated_l, mul_negated_r, negated_neg | ].
  split; [apply mul_negated_l, mul_negated_r, negated_neg | ].
  split; reflexivity.
Qed.

(** X7.  Where the sine is odd and the cosine even at phi, replacing phi by
    [-phi] keeps slots 0, 2 and 3 and negates slot 1; where slot 1 is a
    NaN, it is a NaN for [-phi] as well. *)
Theorem phi_reflection (r phi theta t : double) :
  sin (- phi)%double = (- sin phi)%double ->
  cos (- phi)%double = cos phi ->
  exists p q,
    from_schwarzschild r phi theta t = Some p
    /\ from_schwarzschild r (- phi)%double theta t = Some q
    /\ cell0 q = cell0 p
    /\ negated (cell1 p) (cell1 q)
    /\ cell2 q = cell2 p
    /\ cell3 q = cell3 p.
Proof.
  intros Hs Hc. do 2 eexists.
  split; [apply from_schwarzschild_value | ].
  split; [apply from_schwarzschild_value | ].
  cbn [cell0 cell1 cell2 cell3]. rewrite Hs, Hc.
  split; [reflexivity | ].
  split; [apply mul_negated_r, negated_neg | ].
  split; reflexivity.
Qed.

(** X9.  The conversion in place does not look at the time: changing slot 3
    of a vector and then converting it gives what converting it and then
    changing slot 3 gives. *)
Theorem convert_ignores_time (v : sbh_vec4) (t' : double) :
  exists w v' w',
    dat_set v 3 t' = Some w
    /\ final convert v = Some v'
    /\ final convert w = Some w'
    /\ dat_set v' 3 t' = Some w'.
Proof.
  unfold final. do 3 eexists.
  split; [reflexivity | ].
  rewrite !convert_run. cbn [option_map snd obj].
  split; [reflexivity | ]. split; reflexivity.
Qed.

End Further.

(** X8.  What the local struct of a constructor held before it was assigned
    never shows in the vector returned: the two constructors, and the
    conversion that calls one of them, return the same vector from any two
    such contents. *)
Theorem constructors_initialise
    (mul_nan : double -> double -> bool) (sin cos : double -> double)
    (junk1 junk2 : sbh_vec4) :
  (forall x y z t, sbh_vec4_rect junk1 x y z t = sbh_vec4_rect junk2 x y z t)
  /\ (forall r phi theta t,
        sbh_vec4_rect_from_schwarzschild mul_nan sin cos junk1 r phi theta t
        = sbh_vec4_rect_from_schwarzschild mul_nan sin cos junk2 r phi theta
            t)
  /\ (forall v,
        result (sbh_vec4_schwarzschild_to_rect mul_nan sin cos junk1) v
        = result (sbh_vec4_schwarzschild_to_rect mul_nan sin cos junk2) v).
Proof.
  split; [ | split].
  - intros x y z t. now rewrite !sbh_vec4_rect_value.
  - intros r phi theta t. now rewrite !from_schwarzschild_value.
  - intros v. unfold result. now rewrite !to_rect_run.
Qed.

(** ** Uses of the properties with the reference <math.h> *)

(** [DBL_MAX]. *)
Example DBL_MAX_valid :
  valid (B754_finite false 9007199254740991 971) = true.
Proof. reflexivity. Qed.

(** A use of [non_finite_radius]: r = +infinity, phi = 1, theta = [M_PI]. *)
Lemma non_finite_radius_witness :
  is_finite infinity = false
  /\ exists p,
       sbh_vec4_rect_from_schwarzschild SSE2.mul_nan RefMath.sin RefMath.cos
           junk
         infinity one RefMath.M_PI (of_Z 5) = Some p
       /\ is_finite (cell0 p) = false
       /\ is_finite (cell1 p) = false
       /\ is_finite (cell2 p) = false
       /\ cell3 p = of_Z 5.
Proof.
  split; [reflexivity | ].
  apply (non_finite_radius SSE2.mul_nan RefMath.sin RefMath.cos junk infinity
      one
           RefMath.M_PI (of_Z 5)).
  reflexivity.
Defined.

(** A use of [non_finite_radius_at_pole]: r = -infinity, theta = 0. *)
Lemma non_finite_radius_at_pole_witness :
  (is_finite (B754_infinity true) = false
   /\ is_zero (RefMath.sin zero) = true)
  /\ exists p,
       sbh_vec4_rect_from_schwarzschild SSE2.mul_nan RefMath.sin RefMath.cos
           junk
         (B754_infinity true) one zero (of_Z 5) = Some p
       /\ is_nan (cell0 p) = true
       /\ is_nan (cell1 p) = true.
Proof.
  split; [split; reflexivity | ].
  apply (non_finite_radius_at_pole SSE2.mul_nan RefMath.sin RefMath.cos junk
           (B754_infinity true) one zero (of_Z 5)); reflexivity.
Defined.

(** A use of [finite_radius_bounds]: r = [DBL_MAX], phi = 1,
    theta = [M_PI]. *)
Lemma finite_radius_bounds_witness :
  (valid (B754_finite false 9007199254740991 971) = true
   /\ is_finite (B754_finite false 9007199254740991 971) = true
   /\ valid (RefMath.sin one) = true
   /\ fabs_le_one (RefMath.sin one) = true
   /\ valid (RefMath.cos one) = true
   /\ fabs_le_one (RefMath.cos one) = true
   /\ valid (RefMath.sin RefMath.M_PI) = true
   /\ fabs_le_one (RefMath.sin RefMath.M_PI) = true
   /\ valid (RefMath.cos RefMath.M_PI) = true
   /\ fabs_le_one (RefMath.cos RefMath.M_PI) = true)
  /\ exists p,
       sbh_vec4_rect_from_schwarzschild SSE2.mul_nan RefMath.sin RefMath.cos
           junk
         (B754_finite false 9007199254740991 971) one RefMath.M_PI (of_Z 5)
       = Some p
       /\ (is_finite (cell0 p) = true
           /\ fabs_le (cell0 p) (B754_finite false 9007199254740991 971)
              = true)
       /\ (is_finite (cell1 p) = true
           /\ fabs_le (cell1 p) (B754_finite false 9007199254740991 971)
              = true)
       /\ (is_finite (cell2 p) = true
           /\ fabs_le (cell2 p) (B754_finite false 9007199254740991 971)
              = true).
Proof.
  split.
  - repeat match goal with |- _ /\ _ => split end; vm_compute; reflexivity.
  - apply (finite_radius_bounds SSE2.mul_nan RefMath.sin RefMath.cos junk
             (B754_finite false 9007199254740991 971) one RefMath.M_PI
             (of_Z 5));
      vm_compute; reflexivity.
Defined.

(** A use of [convert_bounds]: the vector ([DBL_MAX], 1, [M_PI], 5). *)
Lemma convert_bounds_witness :
  (valid (B754_finite false 9007199254740991 971) = true
   /\ is_finite (B754_finite false 9007199254740991 971) = true
   /\ valid (RefMath.sin one) = true
   /\ fabs_le_one (RefMath.sin one) = true
   /\ valid (RefMath.cos one) = true
   /\ fabs_le_one (RefMath.cos one) = true
   /\ valid (RefMath.sin RefMath.M_PI) = true
   /\ fabs_le_one (RefMath.sin RefMath.M_PI) = true
   /\ valid (RefMath.cos RefMath.M_PI) = true
   /\ fabs_le_one (RefMath.cos RefMath.M_PI) = true)
  /\ exists v',
       final
         (sbh_vec4_convert_schwarzschild_to_rect SSE2.mul_nan RefMath.sin
            RefMath.cos)
         (mk_sbh_vec4 (B754_finite false 9007199254740991 971) one
            RefMath.M_PI (of_Z 5))
       = Some v'
       /\ (is_finite (cell0 v') = true
           /\ fabs_le (cell0 v') (B754_finite false 9007199254740991 971)
              = true)
       /\ (is_finite (cell1 v') = true
           /\ fabs_le (cell1 v') (B754_finite false 9007199254740991 971)
              = true)
       /\ (is_finite (cell2 v') = true
           /\ fabs_le (cell2 v') (B754_finite false 9007199254740991 971)
              = true).
Proof.
  split.
  - repeat match goal with |- _ /\ _ => split end; vm_compute; reflexivity.
  - apply (convert_bounds SSE2.mul_nan RefMath.sin RefMath.cos
             (mk_sbh_vec4 (B754_finite false 9007199254740991 971) one
                RefMath.M_PI (of_Z 5)));
      vm_compute; reflexivity.
Defined.

(** A use of [theta_reflection]: r = 2, phi = 1, theta = 1. *)
Lemma theta_reflection_witness :
  (RefMath.sin (- one)%double = (- RefMath.sin one)%double
   /\ RefMath.cos (- one)%double = RefMath.cos one)
  /\ exists p q,
       sbh_vec4_rect_from_schwarzschild SSE2.mul_nan RefMath.sin RefMath.cos
           junk
         (of_Z 2) one one (of_Z 5) = Some p
       /\ sbh_vec4_rect_from_schwarzschild SSE2.mul_nan RefMath.sin
           RefMath.cos junk
            (of_Z 2) one (- one)%double (of_Z 5) = Some q
       /\ negated (cell0 p) (cell0 q)
       /\ negated (cell1 p) (cell1 q)
       /\ cell2 q = cell2 p
       /\ cell3 q = cell3 p.
Proof.
  split.
  - split; vm_compute; reflexivity.
  - apply (theta_reflection SSE2.mul_nan RefMath.sin RefMath.cos junk (of_Z 2)
      one one
             (of_Z 5));
      vm_compute; reflexivity.
Defined.

(** A use of [phi_reflection]: r = 2, phi = 1, theta = 1. *)
Lemma phi_reflection_witness :
  (RefMath.sin (- one)%double = (- RefMath.sin one)%double
   /\ RefMath.cos (- one)%double = RefMath.cos one)
  /\ exists p q,
       sbh_vec4_rect_from_schwarzschild SSE2.mul_nan RefMath.sin RefMath.cos
           junk
         (of_Z 2) one one (of_Z 5) = Some p
       /\ sbh_vec4_rect_from_schwarzschild SSE2.mul_nan RefMath.sin
           RefMath.cos junk
            (of_Z 2) (- one)%double one (of_Z 5) = Some q
       /\ cell0 q = cell0 p
       /\ negated (cell1 p) (cell1 q)
       /\ cell2 q = cell2 p
       /\ cell3 q = cell3 p.
Proof.
  split.
  - split; vm_compute; reflexivity.
  - apply (phi_reflection SSE2.mul_nan RefMath.sin RefMath.cos junk (of_Z 2)
      one one
             (of_Z 5));
      vm_compute; reflexivity.
Defined.
